(** * PrometheanAI Maya plug-in: command bridge, identity resolution and placement

    A shallow embedding of the parts of [scripts/promethean_maya.py],
    [scripts/promethean_maya_qt_server.py] and
    [scripts/promethean_maya_server.py] that the specification talks about,
    followed by the properties established for them.

    Conventions.  A Python float is a binary64 value; the finite ones are
    modelled by the rational they denote ([Q]), and their arithmetic rounds
    (module [Num]); infinities and NaN are not modelled.  Python strings are
    [string], Python lists [list], the module-level dictionary
    [old_nodes_names_dict] a [gmap string string].  The Maya session is an
    explicit record of query results (module [Host]).  *)

From Stdlib Require Import ZArith QArith Qround Qabs Lqa Lia List Bool Ascii String.
From Stdlib Require Import PrimFloat FloatOps SpecFloat.
From stdpp Require Import base option list strings gmap.

Local Open Scope Q_scope.

(** ** Numbers *)

Module Num.

(** [floor(log2(a))] for [a > 0]. *)
Definition floor_log2 (a : Q) : Z :=
  let k := (Z.log2 (Qnum a) - Z.log2 (Zpos (Qden a)))%Z in
  if Qle_bool (2 ^ k) a then k else (k - 1)%Z.

(** The integer nearest to [r >= 0], the even one of two that are equally
    near. *)
Definition round_half_even (r : Q) : Z :=
  let n := Qnum r in
  let d := Zpos (Qden r) in
  let q := (n / d)%Z in
  match (2 * (n mod d) ?= d)%Z with
  | Lt => q
  | Gt => (q + 1)%Z
  | Eq => if Z.even q then q else (q + 1)%Z
  end.

(** The binary64 value nearest to [x], ties to even: 53 significant bits,
    least exponent [-1074].  A result past the largest binary64 value is an
    infinity in Python and is not modelled. *)
Definition round64 (x : Q) : Q :=
  if Qeq_bool x 0 then 0 else
  let a := Qabs x in
  let ulp := 2 ^ (Z.max (floor_log2 a - 52) (-1074)) in
  let m := inject_Z (round_half_even (a / ulp)) * ulp in
  Qred (if Qle_bool 0 x then m else - m).

(** [x + y], [x - y], [x * y] and [x / y] on floats ([y] not zero for the
    last). *)
Definition fadd (x y : Q) : Q := round64 (x + y).
Definition fsub (x y : Q) : Q := round64 (x - y).
Definition fmul (x y : Q) : Q := round64 (x * y).
Definition fdiv (x y : Q) : Q := round64 (x / y).

(** The arithmetic of the numbers a function is given: Python computes
    with integers exactly and with floats in binary64. *)
Record arith : Type := {
  ar_add : Q -> Q -> Q;
  ar_sub : Q -> Q -> Q;
  ar_mul : Q -> Q -> Q
}.

Definition Exact : arith := {| ar_add := Qplus; ar_sub := Qminus; ar_mul := Qmult |}.
Definition Binary64 : arith := {| ar_add := fadd; ar_sub := fsub; ar_mul := fmul |}.

(** The value of a float of the kernel, when it is finite. *)
Definition of_float (f : float) : option Q :=
  match Prim2SF f with
  | S754_zero _ => Some 0
  | S754_finite s m e =>
      Some (Qred ((if s then - inject_Z (Zpos m) else inject_Z (Zpos m)) * 2 ^ e))
  | _ => None
  end.

(** [qop] gives on the values of [a] and [b] the value of [fop a b]. *)
Definition agree (fop : float -> float -> float) (qop : Q -> Q -> Q) (a b : float) : Prop :=
  match of_float a, of_float b with
  | Some x, Some y => of_float (fop a b) = Some (qop x y)
  | _, _ => False
  end.

End Num.

(** ** Geometry helpers ([cross], [dot], [check_winding_order]) *)

Module Geometry.
Import Num.

(** A Python list of numbers. *)
Definition vec : Type := list Q.

(** [x < y] on numbers, as a boolean. *)
Definition Qltb (x y : Q) : bool := negb (Qle_bool y x).

(** [sum([x * y for x, y in zip(a, b)])]: [zip] truncates to the shorter
    list, [sum] adds from [0], left to right. *)
Definition dot (ar : arith) (a b : vec) : Q :=
  fold_left (ar_add ar) (map (fun xy : Q * Q => ar_mul ar (fst xy) (snd xy)) (combine a b)) 0.

(** [cross(a, b)]; indexing past the end of a list raises [IndexError],
    which is the [None] here. *)
Definition cross (ar : arith) (a b : vec) : option vec :=
  a0 ← a !! 0%nat; a1 ← a !! 1%nat; a2 ← a !! 2%nat;
  b0 ← b !! 0%nat; b1 ← b !! 1%nat; b2 ← b !! 2%nat;
  Some [ar_sub ar (ar_mul ar a1 b2) (ar_mul ar a2 b1);
        ar_sub ar (ar_mul ar a2 b0) (ar_mul ar a0 b2);
        ar_sub ar (ar_mul ar a0 b1) (ar_mul ar a1 b0)].

(** [[a-b for a, b in zip(p, q)]] *)
Definition sub (ar : arith) (p q : vec) : vec :=
  map (fun xy : Q * Q => ar_sub ar (fst xy) (snd xy)) (combine p q).

(** [check_winding_order(tri, normal)]: [tri.reverse()] reverses the list
    of points, the function returns [tri]. *)
Definition check_winding_order (ar : arith) (tri : list vec) (normal : vec)
  : option (list vec) :=
  t0 ← tri !! 0%nat; t1 ← tri !! 1%nat;
  let ab := sub ar t0 t1 in
  t2 ← tri !! 2%nat;
  let ac := sub ar t0 t2 in
  cross_product ← cross ar ab ac;
  Some (if Qltb (dot ar normal cross_product) 0 then rev tri else tri).

End Geometry.

(** ** Python values and control flow *)

Module Py.

(** The exceptions that the modelled code can raise. *)
Inductive exn : Type :=
| TypeError      (* an operand of the wrong type, e.g. ordering a float and None in Python 3 *)
| IndexError     (* list index out of range *)
| ValueError     (* float() or int() of a malformed literal *)
| ZeroDivisionError  (* float division by zero *)
| RuntimeError.  (* raised by a Maya command *)

Inductive outcome (A : Type) : Type :=
| Ret (a : A)
| Raise (e : exn).
Arguments Ret {A} a.
Arguments Raise {A} e.

(** Truthiness of a string and of a list. *)
Definition truthy_str (s : string) : bool :=
  match s with EmptyString => false | String _ _ => true end.

Definition truthy_list {A : Type} (l : list A) : bool :=
  match l with [] => false | _ :: _ => true end.

(** [a or b] on strings. *)
Definition or_str (a b : string) : string := if truthy_str a then a else b.

(** [needle in haystack] on strings. *)
Fixpoint contains (needle haystack : string) : bool :=
  String.prefix needle haystack ||
  match haystack with
  | EmptyString => false
  | String _ rest => contains needle rest
  end.

(** [s.split(sep)] for a one-character separator. *)
Fixpoint split (sep : ascii) (s : string) : list string :=
  match s with
  | EmptyString => [EmptyString]
  | String c rest =>
      if Ascii.eqb c sep then EmptyString :: split sep rest
      else match split sep rest with
           | cur :: more => String c cur :: more
           | [] => [String c EmptyString]
           end
  end.

(** [s.endswith(suffix)] *)
Definition endswith (suffix s : string) : bool :=
  String.prefix (String.rev suffix) (String.rev s).

(** [x in l] on lists of strings. *)
Definition in_list (x : string) (l : list string) : bool :=
  existsb (String.eqb x) l.

End Py.

(** ** The Maya session

    Every question the modelled code asks the session is a field of [host];
    every command that changes the session (or writes on the socket) is a
    [call] appended to the world's trace. *)

Module Host.
Import Num Geometry Py.

Record host : Type := {
  (* [True] when the interpreter is Python 3 (Maya 2022 and later);
      ordering a number and [None] raises [TypeError] there, and is
      defined ([None] is below every number) in Python 2. *)
  python3 : bool;
  (* [cmds.ls(x)] *)
  ls : string -> list string;
  (* [cmds.ls(x, long=True)] *)
  ls_long : string -> list string;
  (* [cmds.ls(uuid, uuid=True, long=True)]: the handles of the nodes with
      that UUID (with the [uuid] flag Maya answers with UUIDs) *)
  ls_by_uuid : string -> list string;
  (* [cmds.ls(x, uuid=True)] *)
  ls_uuid : string -> list string;
  (* [cmds.objExists(x)] *)
  objExists : string -> bool;
  (* [cmds.listRelatives(x, parent=True, f=True)], [None] being [[]] *)
  listRelatives_parent : string -> list string;
  (* [cmds.listRelatives(x, shapes=True, fullPath=True)], [None] being [[]] *)
  listRelatives_shapes : string -> list string;
  (* [cmds.nodeType(x)] *)
  nodeType : string -> string;
  (* the result of [getObjectsInView()] *)
  objects_in_view : list string;
  (* [cmds.getPanel(underPointer=True)] and [cmds.getPanel(wf=True)],
      the empty string when there is none *)
  getPanel_underPointer : string;
  getPanel_wf : string;
  (* the [om1.MFloatPoint] of the coordinates [p], times [k]: the
      coordinates of the scaled point, which Maya computes in single
      precision *)
  MFloatPoint_times : vec -> Q -> vec;
  (* [MFnMesh(mesh).closestIntersection(source, direction, ..., maxParam, ...)]:
      the hit point when the mesh is intersected *)
  closestIntersection : string -> vec -> vec -> Z -> option vec;
  (* [dag_path.fullPathName()] of the mesh added to the selection list *)
  fullPathName : string -> string;
  (* [mesh.getClosestNormal(point, ..., kWorld)] *)
  getClosestNormal : string -> vec -> vec;
  (* [MVector.normal()] *)
  normal : vec -> vec;
  (* [MFloatPoint.distanceTo] *)
  distanceTo : vec -> vec -> Q;
  (* [cmds.angleBetween(euler=True, v1=..., v2=...)] *)
  angleBetween : vec -> vec -> vec;
  (* [float(cmds.convertUnit(1.0, toUnit='cm').replace('cm', ''))] *)
  convertUnit_to_cm : Q;
  (* [float(s)]; [None] is [ValueError] *)
  py_float : string -> option Q;
  (* [int(s)]; [None] is [ValueError] *)
  py_int_of_str : string -> option Z;
  (* [os.path.isfile(path)] *)
  isfile : string -> bool;
  (* [cmds.polyEvaluate(x, b=1)], as the loop [for x, y in ...] takes it:
      the command refuses some arguments, and its answer for an object
      without polygons is no list of pairs *)
  polyEvaluate_bbox : option string -> outcome (list (Q * Q));
  (* [cmds.polyEvaluate(x, face=1)], as [range] takes it *)
  polyEvaluate_face : option string -> outcome nat;
  (* [cmds.ls(cmds.polyListComponentConversion('%s.f[%s]' % (x, f),
      fromFace=True, toVertex=True), flatten=True)] *)
  face_vertices : option string -> nat -> list string;
  (* [cmds.xform('%s.vtx[%s]' % (x, i), q=1, translation=1, ws=1, absolute=1)] *)
  vertex_position : option string -> Z -> vec;
  (* [json.dumps] of the answers of the two vertex data commands *)
  dumps_vertex_objects : list (string * list vec) -> string;
  dumps_vertex_object : list vec -> string;
  (* names returned by the commands that create or move nodes *)
  group_name : string -> string;
  polyCube_name : string -> string;
  reference_asset_nodes : string -> list string;
  parent_name : string -> string -> string
}.

(** Commands that change the session, and writes on the peer socket. *)
Inductive call : Type :=
| UndoOpenChunk                       (* cmds.undoInfo(openChunk=True) *)
| UndoCloseChunk                      (* cmds.undoInfo(closeChunk=True) *)
| Group (name : string)               (* cmds.group(empty=True, name=..) *)
| ReferenceAsset (asset_path : string)
| PolyCube (name : string)
| Xform (node : string) (translation rotation scale : vec)  (* ws=1 *)
| XformRotation (node : option string) (rotation : vec)     (* ws=True, ro=.. *)
| RotateY (angle : Q) (node : string)                       (* rotateY=True, ws=False *)
| MoveTo (x y z : Q) (node : option string)                 (* absolute=True *)
| Move (x y z : Q) (nodes : list string) (relative : bool)
| Rotate (x y z : Q) (nodes : list string) (relative : bool)
| Scale (x y z : Q) (nodes : list string) (relative : bool)
| Parent (children : list string) (parent : string)
| Select (nodes : list string)                              (* replace=True *)
| SelectClear                                               (* cmds.select(clear=1) *)
| PolyTriangulate (node : option string)
| Undo                                                      (* cmds.undo() *)
| FileSave
| MayaExec (code : string)
| Print (text : string)                                     (* print(...) *)
| PrintExc                                                  (* traceback.print_exc() *)
| SocketWrite (reply : string)                              (* QTcpSocket.write *)
| ConnectionClose (connection : nat).                       (* connection.close() *)

(** The module-level state of [promethean_maya] and the trace of calls. *)
Record world : Type := {
  old_nodes_names_dict : gmap string string;
  units_multiplier : Q;
  calls : list call
}.

Definition set_dict (d : gmap string string) (w : world) : world :=
  {| old_nodes_names_dict := d;
     units_multiplier := units_multiplier w;
     calls := calls w |}.

Definition set_units (u : Q) (w : world) : world :=
  {| old_nodes_names_dict := old_nodes_names_dict w;
     units_multiplier := u;
     calls := calls w |}.

Definition emit (c : call) (w : world) : world :=
  {| old_nodes_names_dict := old_nodes_names_dict w;
     units_multiplier := units_multiplier w;
     calls := calls w ++ [c] |}.

End Host.

(** ** Computations over the world that may raise *)

Module Run.
Import Num Py Host.

Definition M (A : Type) : Type := world -> outcome A * world.

Definition ret {A : Type} (a : A) : M A := fun w => (Ret a, w).

Definition raise {A : Type} (e : exn) : M A := fun w => (Raise e, w).

Definition bind {A B : Type} (m : M A) (k : A -> M B) : M B :=
  fun w =>
    match m w with
    | (Ret a, w') => k a w'
    | (Raise e, w') => (Raise e, w')
    end.

Definition get : M world := fun w => (Ret w, w).

Definition modify (f : world -> world) : M unit := fun w => (Ret tt, f w).

Definition do_call (c : call) : M unit := modify (emit c).

(** [try: body finally: cleanup]; the outcome of [body] is kept unless
    [cleanup] raises itself. *)
Definition try_finally {A : Type} (body : M A) (cleanup : M unit) : M A :=
  fun w =>
    let '(r, w1) := body w in
    match cleanup w1 with
    | (Ret _, w2) => (r, w2)
    | (Raise e, w2) => (Raise e, w2)
    end.

(** [try: body except Exception: handler] *)
Definition try_except {A : Type} (body : M A) (handler : exn -> M A) : M A :=
  fun w =>
    match body w with
    | (Ret a, w') => (Ret a, w')
    | (Raise e, w') => handler e w'
    end.

(** Two computations that do the same from every world. *)
Definition same {A : Type} (m1 m2 : M A) : Prop := forall w, m1 w = m2 w.

(** [l[0]] *)
Definition item0 {A : Type} (l : list A) : M A :=
  match l with
  | x :: _ => ret x
  | [] => raise IndexError
  end.

(** [x / y] on floats. *)
Definition py_div (x y : Q) : M Q :=
  if Qeq_bool y 0 then raise ZeroDivisionError else ret (fdiv x y).

(** [[x / y for x in l]] *)
Fixpoint div_all (l : list Q) (y : Q) : M (list Q) :=
  match l with
  | [] => ret []
  | x :: rest =>
      bind (py_div x y) (fun q => bind (div_all rest y) (fun qs => ret (q :: qs)))
  end.

End Run.

Declare Scope run_scope.
Delimit Scope run_scope with run.
Notation "'do' x <- m ; k" := (Run.bind m (fun x => k))
  (at level 10, x name, m at level 100, k at level 200) : run_scope.
Notation "m ;; k" := (Run.bind m (fun _ => k))
  (at level 100, k at level 200, right associativity) : run_scope.

(** ** Identity resolver *)

Module Resolver.
Import Py Host Run.
Local Open Scope run_scope.

Definition is_hex (c : ascii) : bool :=
  let n := nat_of_ascii c in
  ((48 <=? n) && (n <=? 57) || (97 <=? n) && (n <=? 102) || (65 <=? n) && (n <=? 70))%nat.

(** [[0-9a-f]{n}] at the start of [s]: the rest of [s] after the match. *)
Fixpoint hex_run (n : nat) (s : string) : option string :=
  match n with
  | O => Some s
  | S n' =>
      match s with
      | String c rest => if is_hex c then hex_run n' rest else None
      | EmptyString => None
      end
  end.

(** [-] at the start of [s]. *)
Definition dash (s : string) : option string :=
  match s with
  | String c rest => if Ascii.eqb c "-"%char then Some rest else None
  | EmptyString => None
  end.

(** [uuid_regex] anchored at the start of [s]:
    [[0-9a-f]{8}-[0-9a-f]{4}-[0-9a-f]{4}-[0-9a-f]{4}-[0-9a-f]{12}],
    compiled with [re.IGNORECASE]. *)
Definition uuid_match_here (s : string) : bool :=
  match
    s1 ← hex_run 8 s; s2 ← dash s1; s3 ← hex_run 4 s2; s4 ← dash s3;
    s5 ← hex_run 4 s4; s6 ← dash s5; s7 ← hex_run 4 s6; s8 ← dash s7;
    hex_run 12 s8
  with
  | Some _ => true
  | None => false
  end.

(** [uuid_regex.search(s)]: [group(0)] of the leftmost match. *)
Fixpoint uuid_search (s : string) : option string :=
  if uuid_match_here s then Some (String.substring 0 36 s)
  else match s with
       | EmptyString => None
       | String _ rest => uuid_search rest
       end.

(** [get_node_from_promethean_name(p_name)] *)
Definition get_node_from_promethean_name (h : host) (p_name : string)
  : M (option string) :=
  do w <- get;
  let renamed_node := old_nodes_names_dict w !! p_name in
  do found <-
    match renamed_node with
    | Some r =>
        if truthy_str r then
          if truthy_list (ls h r) then ret (Some r)
          else (modify (set_dict (delete p_name (old_nodes_names_dict w)));; ret None)
        else ret None
    | None => ret None
    end;
  match found with
  | Some r => ret (Some r)
  | None =>
      match uuid_search p_name with
      | Some uuid =>
          match ls_by_uuid h uuid with
          | n :: _ => ret (Some n)
          | [] => ret None
          end
      | None =>
          let node_names := ls_long h p_name in
          if (length node_names =? 1)%nat then
            do n <- item0 node_names; ret (Some n)
          else ret None
      end
  end.

(** [[get_node_from_promethean_name(name) for name in names]] *)
Fixpoint get_nodes_from_promethean_names (h : host) (names : list string)
  : M (list (option string)) :=
  match names with
  | [] => ret []
  | name :: rest =>
      do n <- get_node_from_promethean_name h name;
      do ns <- get_nodes_from_promethean_names h rest;
      ret (n :: ns)
  end.

(** [t] is [n] hexadecimal digits. *)
Fixpoint hexes (n : nat) (t : string) : Prop :=
  match n, t with
  | O, EmptyString => True
  | S n', String c t' => is_hex c = true /\ hexes n' t'
  | _, _ => False
  end.

(** [u] is spelled like a UUID: 8-4-4-4-12 hexadecimal digits. *)
Definition uuid_shape (u : string) : Prop :=
  exists a b c d e,
    u = a +:+ "-" +:+ b +:+ "-" +:+ c +:+ "-" +:+ d +:+ "-" +:+ e /\
    hexes 8 a /\ hexes 4 b /\ hexes 4 c /\ hexes 4 d /\ hexes 12 e.

(** [u] is the leftmost part of [name] that is spelled like a UUID. *)
Definition leftmost_uuid (name u : string) : Prop :=
  uuid_shape u /\
  exists pre post,
    name = pre +:+ u +:+ post /\
    forall pre' u' post',
      name = pre' +:+ u' +:+ post' -> uuid_shape u' ->
      (String.length pre <= String.length pre')%nat.

(** No part of [name] is spelled like a UUID. *)
Definition without_uuid (name : string) : Prop :=
  forall pre u post, name = pre +:+ u +:+ post -> ~ uuid_shape u.

(** Resolution by persistent id or, without one, by display label: what
    steps (2) and (3) of the resolution order return.  A name has a
    leftmost UUID or none; with one, the answer is the first node the
    session gives for that id, and not found when it gives none; without
    one, it is the node the session gives for the label when it gives
    exactly one. *)
Definition by_id_then_label (h : host) (p_name : string) (res : option string) : Prop :=
  ((exists u, leftmost_uuid p_name u) \/ without_uuid p_name) /\
  (forall u, leftmost_uuid p_name u -> res = head (ls_by_uuid h u)) /\
  (without_uuid p_name ->
     forall n, res = Some n <-> ls_long h p_name = [n]).

End Resolver.

(** ** Raytrace engine *)

Module Raytrace.
Import Num Geometry Py Host Run.
Local Open Scope run_scope.

(** [int(x)] on a float: truncation towards zero. *)
Definition py_int (x : Q) : Z := Z.quot (Qnum x) (Zpos (Qden x)).

(** [get_geometry_in_view()]: every object in view is listed once for each
    of its shapes that is a mesh. *)
Definition get_geometry_in_view (h : host) : list string :=
  flat_map
    (fun obj =>
       let shapes :=
         if String.eqb (nodeType h obj) "transform"
         then listRelatives_shapes h obj
         else [obj] in
       flat_map
         (fun shape => if String.eqb (nodeType h shape) "mesh" then [obj] else [])
         shapes)
    (objects_in_view h).

(** An entry of [results]: [(hit_object, hit_point, hit_normal)]. *)
Definition hit : Type := (string * vec * vec)%type.

(** The body of [for mesh in meshes_in_view], for one mesh. *)
Definition intersect (h : host) (source_point direction : vec) (max_param : Z)
    (mesh : string) : option hit :=
  match closestIntersection h mesh source_point direction max_param with
  | Some hit_point =>
      Some (fullPathName h mesh, hit_point, getClosestNormal h mesh hit_point)
  | None => None
  end.

(** One round of [for hit in results], on [(closest_hit, hit_distance)]. *)
Definition closer (h : host) (source_point : vec)
    (acc : option (hit * Q)) (x : hit) : option (hit * Q) :=
  match acc with
  | None => Some (x, distanceTo h (snd (fst x)) source_point)
  | Some (closest_hit, hit_distance) =>
      let hit_dst := distanceTo h (snd (fst x)) source_point in
      if Qltb hit_dst hit_distance then Some (x, hit_dst) else acc
  end.

(** [raytrace(start_point, direction, distance, ignore_dcc_names)];
    [ignore_dcc_names] may hold [None].  Points and vectors of the Maya API
    are lists of their coordinates; the hit position is
    [[p.x / units_multiplier, p.y / units_multiplier, p.z / units_multiplier]]. *)
Definition raytrace (h : host) (start_point direction : vec) (distance : Q)
    (ignore_dcc_names : list (option string)) : M (option hit) :=
  do w <- get;
  let meshes_in_view :=
    filter (fun x => ~ (Some x ∈ ignore_dcc_names)) (get_geometry_in_view h) in
  if negb (truthy_list meshes_in_view) then ret None else
  let panel := or_str (getPanel_underPointer h) (getPanel_wf h) in
  if negb (contains "modelPanel" panel) then ret None else
  let source_point := MFloatPoint_times h start_point (units_multiplier w) in
  let distance := fmul distance (units_multiplier w) in
  let results := omap (intersect h source_point direction (py_int distance)) meshes_in_view in
  match fold_left (closer h source_point) results None with
  | None => ret None
  | Some (closest_hit, _) =>
      let hit_object := fst (fst closest_hit) in
      do hit_position <- div_all (snd (fst closest_hit)) (units_multiplier w);
      let hit_normal := normal h (snd closest_hit) in
      ret (Some (hit_object, hit_position, hit_normal))
  end.

(** [l] splits around an element that minimises [d], the elements before
    it being strictly farther: the first-visited closest element. *)
Definition first_closest {A : Type} (d : A -> Q) (l : list A) (x : A) : Prop :=
  exists l1 l2, l = l1 ++ x :: l2 /\
    (forall y, y ∈ l1 -> d x < d y) /\ (forall y, y ∈ l2 -> d x <= d y).

End Raytrace.

(** ** Placement ([add_object], [translate_and_raytrace_by_name]) *)

Module Placement.
Import Num Geometry Py Host Run Resolver Raytrace.
Local Open Scope run_scope.

(** The JSON object handed to [add_object].  Keys read with
    [obj_dict[...]] are plain fields; keys read with [obj_dict.get(...)]
    are optional. *)
Record obj_dict : Type := {
  od_name : string;
  od_group : bool;                           (* truthiness of obj_dict['group'] *)
  od_asset_path : string;
  od_location : vec;
  od_rotation : vec;
  od_scale : vec;
  od_raytrace_distance : option Q;
  od_raytrace_alignment : option Q;
  od_raytrace_alignment_mask : option Q;
  od_parent_dcc_name : string                (* .get('parent_dcc_name', '') *)
}.

(** Truthiness of a number that may be [None]. *)
Definition truthy_num (x : option Q) : bool :=
  match x with
  | Some q => negb (Qeq_bool q 0)
  | None => false
  end.

(** [l[i]] *)
Definition index (l : vec) (i : nat) : M Q :=
  match l !! i with
  | Some x => ret x
  | None => raise IndexError
  end.

(** [x < y] and [x > y] where [y] may be [None]. *)
Definition py_lt (h : host) (x : Q) (y : option Q) : M bool :=
  match y with
  | Some y => ret (Qltb x y)
  | None => if python3 h then raise TypeError else ret false
  end.

Definition py_gt (h : host) (x : Q) (y : option Q) : M bool :=
  match y with
  | Some y => ret (Qltb y x)
  | None => if python3 h then raise TypeError else ret true
  end.

Definition up : vec := [0; 1; 0].
Definition down : vec := [0; -(1); 0].

(** The raytrace block of [add_object]: [None] is the early
    [return None]; otherwise [(location, rotation, y_rotation_needed)]. *)
Definition add_object_raytrace (h : host) (o : obj_dict) (location : vec)
  : M (option (vec * vec * bool)) :=
  do w <- get;
  let rotation := od_rotation o in
  if truthy_num (od_raytrace_distance o) then
    do raytrace_distance <- py_div (default 0 (od_raytrace_distance o)) (units_multiplier w);
    do l0 <- index location 0;
    do l1 <- index location 1;
    do l2 <- index location 2;
    let start_point := [l0; fadd l1 (fmul raytrace_distance (1 # 2)); l2] in
    do hit <- raytrace h start_point down raytrace_distance [None];
    match hit with
    | Some (hit_object, hit_position, hit_normal) =>
        if truthy_str hit_object then
          let location := hit_position in
          let raytrace_alignment := od_raytrace_alignment o in
          let raytrace_alignment_mask := od_raytrace_alignment_mask o in
          if truthy_num raytrace_alignment || truthy_num raytrace_alignment_mask then
            let up_dot_product := dot Binary64 up hit_normal in
            do rejected <- py_lt h up_dot_product raytrace_alignment_mask;
            if rejected then ret None else
            do aligned <- py_gt h up_dot_product raytrace_alignment;
            if aligned
            then ret (Some (location, angleBetween h [0; 1; 0] hit_normal, true))
            else ret (Some (location, rotation, false))
          else ret (Some (location, rotation, false))
        else ret (Some (location, rotation, false))
    | None => ret (Some (location, rotation, false))
    end
  else ret (Some (location, rotation, false)).

(** [reference_asset(asset_path)], as [add_object] calls it: a path that
    is no file is first looked up as a node name; what follows (the
    duplication of the existing transform, or the import of the file and
    the tagging of the new nodes) talks to the session only: it is the
    [ReferenceAsset] entry of the trace, and the session names the nodes
    it added. *)
Definition reference_asset (h : host) (asset_path : string) : M (list string) :=
  if negb (truthy_str asset_path) then ret [] else
  (if negb (isfile h asset_path)
   then get_node_from_promethean_name h asset_path;; ret tt
   else ret tt);;
  do_call (ReferenceAsset asset_path);;
  ret (reference_asset_nodes h asset_path).

(** [add_object], from [if obj_dict['group']] up to the [polyCube]
    fallback: the name of the new node. *)
Definition add_object_node (h : host) (o : obj_dict) : M string :=
  do out_name <-
    (if od_group o then
       do_call (Group (od_name o));; ret (Some (group_name h (od_name o)))
     else if truthy_str (od_asset_path o) then
       do added_objects <- reference_asset h (od_asset_path o);
       ret (head added_objects)
     else ret None);
  match out_name with
  | Some n => if truthy_str n then ret n
              else do_call (PolyCube (od_name o));; ret (polyCube_name h (od_name o))
  | None => do_call (PolyCube (od_name o));; ret (polyCube_name h (od_name o))
  end.

(** [add_object], from [parent_name = obj_dict.get('parent_dcc_name', '')]
    to the final [return out_name]. *)
Definition add_object_parent (h : host) (o : obj_dict) (out_name : string)
  : M (option string) :=
  let parent_name_ := od_parent_dcc_name o in
  if truthy_str parent_name_ then
    do dcc_parent_name <- get_node_from_promethean_name h parent_name_;
    match dcc_parent_name with
    | Some p =>
        if truthy_str p then
          do_call (Parent [out_name] p);; ret (Some (parent_name h out_name p))
        else ret (Some out_name)
    | None => ret (Some out_name)
    end
  else ret (Some out_name).

(** The creation part of [add_object], from [if obj_dict['group']] on. *)
Definition add_object_create (h : host) (o : obj_dict)
    (location rotation : vec) (y_rotation_needed : bool) : M (option string) :=
  do out_name <- add_object_node h o;
  do_call (Xform out_name location rotation (od_scale o));;
  (if y_rotation_needed then
     do yaw <- index (od_rotation o) 1; do_call (RotateY yaw out_name)
   else ret tt);;
  add_object_parent h o out_name.

(** [add_object(obj_dict)] *)
Definition add_object (h : host) (o : obj_dict) : M (option string) :=
  do w <- get;
  do location <- div_all (od_location o) (units_multiplier w);
  do placed <- add_object_raytrace h o location;
  match placed with
  | None => ret None
  | Some (location, rotation, y_rotation_needed) =>
      add_object_create h o location rotation y_rotation_needed
  end.

(** [translate_and_raytrace_by_name(dcc_names, location, raytrace_distance,
    max_normal_deviation, ignore_dcc_names)]; [location] is carried from
    one name to the next. *)
Fixpoint translate_and_raytrace_by_name (h : host) (dcc_names : list (option string))
    (location : vec) (raytrace_distance max_normal_deviation : Q)
    (ignore_dcc_names : list (option string)) : M unit :=
  match dcc_names with
  | [] => ret tt
  | dcc_name :: rest =>
      let start_point := location in
      do location <-
        (if truthy_num (Some raytrace_distance) then
           do hit <- raytrace h start_point down raytrace_distance ignore_dcc_names;
           match hit with
           | Some (hit_object, hit_position, hit_normal) =>
               if truthy_str hit_object then
                 let up_dot_product := dot Binary64 up hit_normal in
                 (if Qltb max_normal_deviation up_dot_product then
                    do_call (XformRotation dcc_name (angleBetween h [0; 1; 0] hit_normal))
                  else ret tt);;
                 ret hit_position
               else ret location
           | None => ret location
           end
         else ret location);
      do x <- index location 0;
      do y <- index location 1;
      do z <- index location 2;
      do_call (MoveTo x y z dcc_name);;
      translate_and_raytrace_by_name h rest location raytrace_distance
        max_normal_deviation ignore_dcc_names
  end.

End Placement.

(** ** Vertex data ([get_triangle_positions], [element_list_to_int]) *)

Module Mesh.
Import Num Geometry Py Host Run Resolver.
Local Open Scope run_scope.

(** [s.rfind(c)]: the index of the last [c] in [s], [-1] when there is
    none; [i] is the index of the head of [s]. *)
Fixpoint rfind_from (c : ascii) (s : string) (i : Z) : Z :=
  match s with
  | EmptyString => (-1)%Z
  | String c' rest =>
      let later := rfind_from c rest (i + 1)%Z in
      if (0 <=? later)%Z then later
      else if Ascii.eqb c' c then i else (-1)%Z
  end.

Definition rfind (c : ascii) (s : string) : Z := rfind_from c s 0%Z.

(** [s[a:b]] for [a >= 0]; a negative [b] counts from the end. *)
Definition slice (s : string) (a b : Z) : string :=
  let len := Z.of_nat (String.length s) in
  let b' := if (b <? 0)%Z then Z.max 0 (len + b) else Z.min b len in
  String.substring (Z.to_nat a) (Z.to_nat (b' - a)) s.

(** [element_list_to_int(item_list)] *)
Fixpoint element_list_to_int (h : host) (item_list : list string) : M (list Z) :=
  match item_list with
  | [] => ret []
  | str_item :: rest =>
      match py_int_of_str h (slice str_item (rfind "[" str_item + 1)%Z (rfind "]" str_item)) with
      | None => raise ValueError
      | Some n => do out_values <- element_list_to_int h rest; ret (n :: out_values)
      end
  end.

(** The loop [for f_num in range(face_num)] of [get_triangle_positions]
    with [direction_mask=False]; [todo] faces are left, [f_num] is the
    next one. *)
Fixpoint face_loop (h : host) (dcc_name : option string) (todo f_num : nat)
  : M (list vec) :=
  match todo with
  | O => ret []
  | S todo' =>
      let verts := face_vertices h dcc_name f_num in
      do vert_ids <- element_list_to_int h verts;
      let current_face_verts := map (vertex_position h dcc_name) vert_ids in
      do more <- face_loop h dcc_name todo' (S f_num);
      ret (current_face_verts ++ more)
  end.

(** [get_triangle_positions(dcc_name, direction_mask=False)], as both
    vertex data commands call it.  The centre of the bounding box is
    computed and not used. *)
Definition get_triangle_positions (h : host) (dcc_name : option string) : M (list vec) :=
  do_call UndoOpenChunk;;
  match polyEvaluate_bbox h dcc_name with
  | Raise e => raise e
  | Ret bbox =>
      do_call (PolyTriangulate dcc_name);;
      do_call SelectClear;;
      match polyEvaluate_face h dcc_name with
      | Raise e => raise e
      | Ret face_num =>
          do face_verts <- face_loop h dcc_name face_num 0;
          do_call UndoCloseChunk;;
          do_call Undo;;
          ret face_verts
      end
  end.

(** The loop of the command [get_vertex_data_from_scene_objects] over
    [zip(nodes, p_names)]. *)
Fixpoint vertex_data_loop (h : host) (pairs : list (option string * string))
  : M (list (string * list vec)) :=
  match pairs with
  | [] => ret []
  | (node, p_name) :: rest =>
      do vert_list <- get_triangle_positions h node;
      do out <- vertex_data_loop h rest;
      ret ((p_name, vert_list) :: out)
  end.

End Mesh.

(** ** Command dispatcher ([one_undo_chunk], [command_switch]) *)

Module Dispatch.
Import Num Geometry Py Host Run Resolver Raytrace Placement Mesh.
Local Open Scope run_scope.

(** The decorator [one_undo_chunk]. *)
Definition one_undo_chunk {A : Type} (func : M A) : M A :=
  do_call UndoOpenChunk;;
  try_finally (try_except func (fun e => raise e)) (do_call UndoCloseChunk).

(** [[x for x in nodes if x]] *)
Definition truthy_nodes (nodes : list (option string)) : list string :=
  omap (fun x => match x with
                 | Some n => if truthy_str n then Some n else None
                 | None => None
                 end) nodes.

(** [_get_valid_children()] of the ['parent'] branch; [parent] is the
    resolved parent node. *)
Fixpoint valid_children_loop (h : host) (parent : string)
    (valid_chldren_exists : list string) : M (list string) :=
  match valid_chldren_exists with
  | [] => ret []
  | valid_child :: rest =>
      do keep <-
        (match listRelatives_parent h valid_child with
         | child_parent :: _ =>
             if negb (objExists h child_parent) then ret false else
             do parent_uuid <- item0 (ls_uuid h child_parent);
             if String.eqb parent_uuid parent then ret false else ret true
         | [] => ret true
         end);
      do more <- valid_children_loop h parent rest;
      ret (if keep then valid_child :: more else more)
  end.

Definition get_valid_children (h : host) (parent : string)
    (children : list (option string)) : M (list string) :=
  let valid_chldren_exists := List.filter (objExists h) (truthy_nodes children) in
  valid_children_loop h parent valid_chldren_exists.

(** The children that [_get_valid_children] lets through when the
    comparison of the parent's UUID with the target never succeeds. *)
Definition parent_still_exists (h : host) (child : string) : bool :=
  match listRelatives_parent h child with
  | child_parent :: _ => objExists h child_parent
  | [] => true
  end.

(** The ['parent'] branch, after [len(command_list) > 1] was checked;
    [arg] is [command_list[1]]. *)
Definition command_parent (h : host) (arg : string) : M unit :=
  let p_names := split ","%char arg in
  do nodes <- get_nodes_from_promethean_names h p_names;
  match nodes with
  | [] => raise IndexError
  | parent :: children =>
      match parent with
      | Some parent =>
          if truthy_str parent && objExists h parent then
            do valid_children <- get_valid_children h parent children;
            if truthy_list valid_children
            then do_call (Parent valid_children parent)
            else ret tt
          else ret tt
      | None => ret tt
      end
  end.

(** [[float(x) / units_multiplier if ... else float(x) for x in ...]] *)
Fixpoint transform_values (h : host) (is_translate : bool) (um : Q)
    (xs : list string) : M (list Q) :=
  match xs with
  | [] => ret []
  | x :: rest =>
      match py_float h x with
      | None => raise ValueError
      | Some v =>
          do v' <- (if is_translate then py_div v um else ret v);
          do vs <- transform_values h is_translate um rest;
          ret (v' :: vs)
      end
  end.

Definition transform_commands : list string :=
  ["translate"; "scale"; "rotate"; "translate_relative"; "scale_relative"; "rotate_relative"].

(** The translate/scale/rotate branch, after [len(command_list) > 1] was
    checked. *)
Definition command_transform (h : host) (command : string) (command_list : list string)
  : M unit :=
  do w <- get;
  do arg1 <- item0 (drop 1 command_list);
  do value <- transform_values h (in_list command ["translate"; "translate_relative"])
                (units_multiplier w) (split ","%char arg1);
  do arg2 <- item0 (drop 2 command_list);
  let p_names := split ","%char arg2 in
  do nodes <- get_nodes_from_promethean_names h p_names;
  let relative := endswith "_relative" command in
  let func :=
    if contains "translate" command then Some Move
    else if contains "rotate" command then Some Rotate
    else if contains "scale" command then Some Scale
    else None in
  match func with
  | Some func =>
      let nodes := truthy_nodes nodes in
      do v0 <- index value 0;
      do v1 <- index value 1;
      do v2 <- index value 2;
      do_call (func v0 v1 v2 nodes relative)
  | None => ret tt
  end.

(** What a branch of the switch leaves behind: [msg] (still
    ['DefaultValue'], or a value), or a bare [return]. *)
Inductive branch : Type :=
| DefaultValue
| Msg (msg : string)
| Return.

Definition quote : string := String (ascii_of_nat 34) EmptyString.

Section Switch.
(** The typed commands whose branches are not spelled out here: given the
    session, [command_list] and [command_str], the branch to run, if the
    command is one of them. *)
Variable other_commands : host -> list string -> string -> option (M branch).

(** One round of [for command_str in meta_command_str.split('\n')],
    up to the test of [msg]. *)
Definition command_branch (h : host) (command_str : string) : M branch :=
  let command_list := split " "%char command_str in
  let command := default EmptyString (head command_list) in
  if String.eqb command "save_current_scene" then
    do_call FileSave;; ret DefaultValue
  else if String.eqb command "parent" && (1 <? length command_list)%nat then
    do arg <- item0 (drop 1 command_list);
    command_parent h arg;; ret DefaultValue
  else if String.eqb command "select" then
    do arg <- item0 (drop 1 command_list);
    do nodes <- get_nodes_from_promethean_names h (split ","%char arg);
    do_call (Select (truthy_nodes nodes));; ret DefaultValue
  else if String.eqb command "get_vertex_data_from_scene_objects"
          && (1 <? length command_list)%nat then
    do arg <- item0 (drop 1 command_list);
    let p_names := split ","%char arg in
    do nodes <- get_nodes_from_promethean_names h p_names;
    do out_dict <- vertex_data_loop h (combine nodes p_names);
    ret (Msg (dumps_vertex_objects h out_dict))
  else if String.eqb command "get_vertex_data_from_scene_object"
          && (1 <? length command_list)%nat then
    do p_name <- item0 (drop 1 command_list);
    do node <- get_node_from_promethean_name h p_name;
    match node with
    | Some n =>
        if truthy_str n then
          do vert_list <- get_triangle_positions h (Some n);
          ret (Msg (dumps_vertex_object h vert_list))
        else ret DefaultValue
    | None => ret DefaultValue
    end
  else if String.eqb command "report_done" then
    ret (Msg (quote +:+ "Done" +:+ quote))
  else if in_list command transform_commands && (1 <? length command_list)%nat then
    command_transform h command command_list;; ret DefaultValue
  else if String.eqb command "load_assets" || String.eqb command "drop_asset" then
    do_call (Print ("PrometheanAI: Ignore " +:+ quote +:+ command +:+ quote +:+
                    " command because drag and drop is handled by a custom callback"));;
    ret Return
  else
    match other_commands h command_list command_str with
    | Some run => run
    | None => do_call (MayaExec command_str);; ret DefaultValue
    end.

(** The loop of [command_switch]. *)
Fixpoint command_loop (h : host) (lines : list string) : M (option string) :=
  match lines with
  | [] => ret None
  | command_str :: rest =>
      if negb (truthy_str command_str) then command_loop h rest else
      do b <- command_branch h command_str;
      match b with
      | DefaultValue => command_loop h rest
      | Msg msg => ret (Some (or_str msg "None"))
      | Return => ret None
      end
  end.

(** [command_switch(meta_command_str)], decorated with
    [@one_undo_chunk]. *)
Definition command_switch (h : host) (meta_command_str : string) : M (option string) :=
  one_undo_chunk (command_loop h (split "010"%char meta_command_str)).

End Switch.

End Dispatch.

(** ** Unit conversion state *)

Module Units.
Import Py Host Run.

(** [set_current_units_multiplier()]: the module-level [units_multiplier]
    takes the session's current unit-to-centimetre factor.  It runs once
    when the module is imported and then as the [scriptJob] registered on
    the [linearUnitChanged] event. *)
Definition set_current_units_multiplier (h : host) : M unit :=
  modify (set_units (convertUnit_to_cm h)).

(** The session after its linear unit was changed to one worth [u]
    centimetres. *)
Definition with_unit (u : Q) (h : host) : host := {|
  python3 := python3 h;
  ls := ls h; ls_long := ls_long h; ls_by_uuid := ls_by_uuid h; ls_uuid := ls_uuid h;
  objExists := objExists h;
  listRelatives_parent := listRelatives_parent h;
  listRelatives_shapes := listRelatives_shapes h;
  nodeType := nodeType h;
  objects_in_view := objects_in_view h;
  getPanel_underPointer := getPanel_underPointer h;
  getPanel_wf := getPanel_wf h;
  MFloatPoint_times := MFloatPoint_times h;
  closestIntersection := closestIntersection h;
  fullPathName := fullPathName h;
  getClosestNormal := getClosestNormal h;
  normal := normal h;
  distanceTo := distanceTo h;
  angleBetween := angleBetween h;
  convertUnit_to_cm := u;
  py_float := py_float h;
  py_int_of_str := py_int_of_str h;
  isfile := isfile h;
  polyEvaluate_bbox := polyEvaluate_bbox h;
  polyEvaluate_face := polyEvaluate_face h;
  face_vertices := face_vertices h;
  vertex_position := vertex_position h;
  dumps_vertex_objects := dumps_vertex_objects h;
  dumps_vertex_object := dumps_vertex_object h;
  group_name := group_name h;
  polyCube_name := polyCube_name h;
  reference_asset_nodes := reference_asset_nodes h;
  parent_name := parent_name h
|}.

(** What happens in a session between two reads of the socket. *)
Inductive session_event : Type :=
| UnitChange (u : Q) (notified : bool)  (* the unit changes; the scriptJob runs or not *)
| Command (line : string).              (* a line is dispatched *)

End Units.

(** ** The Qt server ([promethean_maya_qt_server.MayaServer]) *)

Module QtServer.
Import Py Host Run.
Local Open Scope run_scope.

(** The lines printed for a command read and for a reply sent; the second
    shows [res.encode('utf-8')], which Python 3 prints in its bytes
    notation. *)
Definition new_command_message (data : string) : string :=
  "PrometheanAI: New network Maya command: " +:+ data.

Definition reply_message (res : string) : string :=
  "PrometheanAI: Sending message back to Promethean: " +:+ res.

Section Server.
(** [promethean_maya.command_switch] *)
Variable command_switch : string -> M (option string).

(** The [while data_commands] loop of [_process_data]; [res] is the
    reply kept so far. *)
Fixpoint process_loop (data_commands : list string) (res : option string)
  : M (option string) :=
  match data_commands with
  | [] => ret res
  | data :: rest =>
      if negb (truthy_str data) then process_loop rest res else
      do_call (Print (new_command_message data));;
      do res <- try_except (command_switch data)
                  (fun _ =>
                     do_call (Print "PrometheanAI: Maya command switch failed with this message:");;
                     do_call PrintExc;;
                     ret (Some "None"));
      process_loop rest res
  end.

(** [_write(reply_str)]; [connected] says whether the socket is in
    [ConnectedState]. *)
Definition write (connected : bool) (reply_str : string) : M unit :=
  if connected then do_call (SocketWrite reply_str) else ret tt.

(** [_process_data(data_str)] *)
Definition process_data (connected : bool) (data_str : string) : M unit :=
  do res <- process_loop (split "010"%char data_str) None;
  match res with
  | Some r => if truthy_str r then do_call (Print (reply_message r));; write connected r
              else ret tt
  | None => ret tt
  end.
End Server.

End QtServer.

(** ** The threaded server ([promethean_maya_server]) *)

Module QueueServer.
Import Py Host Run Dispatch.
Local Open Scope run_scope.

(** [with Undo(): body] *)
Definition with_Undo {A : Type} (body : M A) : M A :=
  do_call UndoOpenChunk;; try_finally body (do_call UndoCloseChunk).

(** [promethean_maya.command_switch(connection, str(data.decode()))]:
    the decorated function is entered, and the call of the one-parameter
    [command_switch] with two arguments raises [TypeError]. *)
Definition command_switch_call (connection : nat) (data : string) : M (option string) :=
  one_undo_chunk (raise TypeError).

Definition vacate_socket_command : string := "promethean_vacate_socket".

(** An item of [command_stack]: [(data, connection)]. *)
Definition item : Type := (string * nat)%type.

Section Worker.
(** The call made for a dequeued item; [command_switch_call] in the
    source. *)
Variable dispatch : nat -> string -> M (option string).

(** The body of [if command_stack:] in [execute_command_stack], for the
    item just popped. *)
Definition execute_item (it : item) : M unit :=
  do_call (Print ("PrometheanAI: New network command stack item: " +:+ fst it));;
  try_except (with_Undo (dispatch (snd it) (fst it));; ret tt)
    (fun _ =>
       do_call (Print "PrometheanAI: Maya command switch failed with this message:");;
       do_call PrintExc);;
  do_call (ConnectionClose (snd it)).

(** Where a thread of [execute_command_stack] is. *)
Inductive pc : Type :=
| LoopHead              (* about to test [while enable_command_stack] *)
| QueueTest             (* in the loop, about to test [if command_stack] *)
| AboutToPop            (* the stack was found non-empty *)
| Popped (it : item)    (* the item is off the stack and about to be executed *)
| Exited                (* the loop was left *)
| Crashed.              (* [pop(0)] raised [IndexError] *)

(** The module-level state shared by the threads, and where each thread
    of [execute_command_stack] is: [start_server] starts one such thread
    at every call. *)
Record server : Type := {
  command_stack : list item;
  enable_command_stack : bool;
  session : world;
  workers : list pc
}.

(** What one thread does in one step. *)
Inductive action : Type :=
| Recv (connection : nat) (data : string)  (* a connection thread returns from recv *)
| Work (i : nat)                           (* the [i]-th worker takes its next step *)
| Close                                    (* [close_server()] clears the flag *)
| Start.                                   (* [start_server()], after its [close_server()]
                                              and its sleep: the flag is set and a
                                              worker thread is started *)

Definition at_pc (i : nat) (p : pc) (s : server) : server :=
  {| command_stack := command_stack s;
     enable_command_stack := enable_command_stack s;
     session := session s;
     workers := <[i := p]> (workers s) |}.

(** The step of the [i]-th worker.  The execution of a popped item is one
    step: the connection threads touch the stack and the flag, never the
    session. *)
Definition work (i : nat) (s : server) : server :=
  match workers s !! i with
  | Some LoopHead => at_pc i (if enable_command_stack s then QueueTest else Exited) s
  | Some QueueTest => at_pc i (if truthy_list (command_stack s) then AboutToPop else LoopHead) s
  | Some AboutToPop =>
      match command_stack s with
      | it :: rest =>
          {| command_stack := rest;
             enable_command_stack := enable_command_stack s;
             session := session s;
             workers := <[i := Popped it]> (workers s) |}
      | [] => at_pc i Crashed s
      end
  | Some (Popped it) =>
      {| command_stack := command_stack s;
         enable_command_stack := enable_command_stack s;
         session := snd (execute_item it (session s));
         workers := <[i := LoopHead]> (workers s) |}
  | Some Exited | Some Crashed | None => s
  end.

(** [close_server()], as far as the worker is concerned. *)
Definition close_server (s : server) : server :=
  {| command_stack := command_stack s;
     enable_command_stack := false;
     session := session s;
     workers := workers s |}.

Definition step (ignore_vacate_socket : bool) (a : action) (s : server) : server :=
  match a with
  | Recv connection data =>
      if truthy_str data then
        if String.eqb data vacate_socket_command then
          if negb ignore_vacate_socket then close_server s else s
        else
          {| command_stack := command_stack s ++ [(data, connection)];
             enable_command_stack := enable_command_stack s;
             session := session s;
             workers := workers s |}
      else s
  | Work i => work i s
  | Close => close_server s
  | Start =>
      {| command_stack := command_stack s;
         enable_command_stack := true;
         session := session s;
         workers := workers s ++ [LoopHead] |}
  end.

(** The server after the threads have taken the steps of [schedule], in
    that order. *)
Definition run (ignore_vacate_socket : bool) (schedule : list action) (s : server)
  : server :=
  fold_left (fun s a => step ignore_vacate_socket a s) schedule s.

(** The server as the first call of [start_server] leaves it: an empty
    stack, the flag set, one worker at the head of its loop. *)
Definition started (w : world) : server :=
  {| command_stack := []; enable_command_stack := true; session := w; workers := [LoopHead] |}.

(** [start_server] is not called again. *)
Definition started_once (schedule : list action) : bool :=
  forallb (fun a => match a with Start => false | _ => true end) schedule.

(** The commands enqueued by a schedule, in arrival order. *)
Definition arrivals (schedule : list action) : list item :=
  omap (fun a => match a with
                 | Recv connection data =>
                     if truthy_str data && negb (String.eqb data vacate_socket_command)
                     then Some (data, connection) else None
                 | _ => None
                 end) schedule.

(** The items that are off the stack and not executed yet. *)
Definition in_flight (s : server) : list item :=
  flat_map (fun p => match p with Popped it => [it] | _ => [] end) (workers s).

(** The worker threads that are still in their loop. *)
Definition live (s : server) : list pc :=
  List.filter (fun p => match p with Exited | Crashed => false | _ => true end) (workers s).

(** The session after the worker has gone through [items] in order. *)
Definition execute_items (items : list item) (w : world) : world :=
  fold_left (fun w it => snd (execute_item it w)) items w.

(** What one connection submitted, in its own order. *)
Definition submitted_by (connection : nat) (items : list item) : list item :=
  List.filter (fun it => Nat.eqb (snd it) connection) items.

End Worker.

End QueueServer.

(** ** A session: unit changes and dispatched lines *)

Module Session.
Import Py Host Run Units.

Section Run.
(** [promethean_maya.command_switch] in a given session *)
Variable command_switch : host -> string -> M (option string).

(** The session and the module state after a sequence of events.  The
    [scriptJob] on [linearUnitChanged] runs [set_current_units_multiplier]
    when the change is notified. *)
Fixpoint run_session (h : host) (events : list session_event) (w : world)
  : host * world :=
  match events with
  | [] => (h, w)
  | UnitChange u notified :: rest =>
      let h' := with_unit u h in
      let w' := if notified then snd (set_current_units_multiplier h' w) else w in
      run_session h' rest w'
  | Command line :: rest =>
      run_session h rest (snd (command_switch h line w))
  end.
End Run.

End Session.

(** ** A small session used to run the definitions *)

Module Sample.
Import Num Geometry Py Host Run.

Definition uuid_P : string := "00000000-0000-0000-0000-000000000001".
Definition uuid_C : string := "00000000-0000-0000-0000-000000000002".
Definition uuid_floor : string := "00000000-0000-0000-0000-000000000003".

(** Squared Euclidean distance: it orders points as the distance does. *)
Definition distance2 (p q : vec) : Q :=
  fold_left Qplus (map (fun xy : Q * Q => (fst xy - snd xy) * (fst xy - snd xy)) (combine p q)) 0.

(** Plain decimal literals, [-12.5] and the like: the part of [float]
    that the sample session needs. *)
Definition digit (c : ascii) : option Z :=
  let n := nat_of_ascii c in
  if ((48 <=? n) && (n <=? 57))%nat then Some (Z.of_nat (n - 48)) else None.

Fixpoint digits (s : string) (acc : Z) (scale : positive) (frac : bool)
  : option (Z * positive) :=
  match s with
  | EmptyString => Some (acc, scale)
  | String c rest =>
      if Ascii.eqb c "."%char then
        if frac then None else digits rest acc scale true
      else match digit c with
           | Some d => digits rest (acc * 10 + d)%Z (if frac then (scale * 10)%positive else scale) frac
           | None => None
           end
  end.

Definition parse_decimal (s : string) : option Q :=
  match s with
  | EmptyString => None
  | String c rest =>
      if Ascii.eqb c "-"%char then
        match rest with
        | EmptyString => None
        | _ => '(n, d) ← digits rest 0%Z 1%positive false; Some (Qmake (- n) d)
        end
      else '(n, d) ← digits s 0%Z 1%positive false; Some (Qmake n d)
  end.

(** Plain decimal integers, the part of [int] that the sample session
    needs. *)
Definition parse_int (s : string) : option Z :=
  match s with
  | EmptyString => None
  | _ => if Py.contains "." s then None else fst <$> digits s 0%Z 1%positive false
  end.

(** The node that a name stands for: Maya commands take a DAG path or a
    UUID. *)
Definition node_path (x : string) : option string :=
  if Py.in_list x ["|P"; "|P|C"; "|floor"; "|floor|floorShape"] then Some x
  else if String.eqb x uuid_P then Some "|P"
  else if String.eqb x uuid_C then Some "|P|C"
  else if String.eqb x uuid_floor then Some "|floor"
  else None.

Definition node_uuid (path : string) : list string :=
  if String.eqb path "|P" then [uuid_P]
  else if String.eqb path "|P|C" then [uuid_C]
  else if String.eqb path "|floor" then [uuid_floor]
  else [].

(** A scene with a group [|P], its child [|P|C] and a mesh [|floor] in the
    plane [y = 0], a square of two triangles, seen in [modelPanel4].  With the [uuid] flag, [ls]
    answers with UUIDs.  A ray cast straight down from above the floor
    hits it when the floor is within range; the floor's normal and the
    interpreter version are left open. *)
Definition scene (py3 : bool) (floor_normal : vec) : host := {|
  python3 := py3;
  ls := fun x => match node_path x with Some p => [p] | None => [] end;
  ls_long := fun x =>
    if String.eqb x "P" then ["|P"]
    else if String.eqb x "C" then ["|P|C"]
    else if String.eqb x "floor" then ["|floor"]
    else match node_path x with Some p => [p] | None => [] end;
  ls_by_uuid := fun u =>
    if Py.in_list u [uuid_P; uuid_C; uuid_floor] then [u] else [];
  ls_uuid := fun x => match node_path x with Some p => node_uuid p | None => [] end;
  objExists := fun x => match node_path x with Some _ => true | None => false end;
  listRelatives_parent := fun x =>
    match node_path x with
    | Some p => if String.eqb p "|P|C" then ["|P"] else []
    | None => []
    end;
  listRelatives_shapes := fun x => if String.eqb x "|floor" then ["|floor|floorShape"] else [];
  nodeType := fun x => if String.eqb x "|floor|floorShape" then "mesh" else "transform";
  objects_in_view := ["|floor"];
  getPanel_underPointer := "modelPanel4";
  getPanel_wf := "modelPanel4";
  MFloatPoint_times := fun p k => map (fun c => fmul c k) p;
  closestIntersection := fun mesh source direction max_param =>
    match source with
    | [x; y; z] =>
        if String.eqb mesh "|floor" && Qle_bool 0 y && Qle_bool y (inject_Z max_param)
        then Some [x; 0; z] else None
    | _ => None
    end;
  fullPathName := fun mesh => mesh;
  getClosestNormal := fun _ _ => floor_normal;
  normal := fun n => n;
  distanceTo := distance2;
  angleBetween := fun _ v2 =>
    match v2 with
    | [x; y; z] => [Qred (90 * z); 0; Qred (-(90) * x)]
    | _ => [0; 0; 0]
    end;
  convertUnit_to_cm := 1;
  py_float := fun s => round64 <$> parse_decimal s;
  py_int_of_str := parse_int;
  isfile := fun _ => false;
  polyEvaluate_bbox := fun x =>
    match x with
    | Some n => if String.eqb n "|floor"
                then Ret [(-(50), 50); (0, 0); (-(50), 50)]
                else Raise ValueError
    | None => Raise TypeError
    end;
  polyEvaluate_face := fun x =>
    match x with
    | Some n => if String.eqb n "|floor" then Ret 2%nat else Raise TypeError
    | None => Raise TypeError
    end;
  face_vertices := fun x f =>
    match f with
    | O => ["|floor.vtx[0]"; "|floor.vtx[1]"; "|floor.vtx[2]"]
    | _ => ["|floor.vtx[0]"; "|floor.vtx[2]"; "|floor.vtx[3]"]
    end;
  vertex_position := fun x i =>
    [if (i =? 0)%Z || (i =? 3)%Z then -(50) else 50; 0;
     if (i =? 0)%Z || (i =? 1)%Z then -(50) else 50];
  dumps_vertex_objects := fun l => String.concat "," (map fst l);
  dumps_vertex_object := fun l => "vertex_positions";
  group_name := fun name => String "|" name;
  polyCube_name := fun name => String "|" name;
  reference_asset_nodes := fun _ => [];
  parent_name := fun child parent => parent +:+ "|" +:+ child
|}.

Definition world0 : world := {|
  old_nodes_names_dict := ∅;
  units_multiplier := 1;
  calls := []
|}.

(** A crate dropped from [y = 10] with a raytrace distance of [100]. *)
Definition crate (alignment mask : option Q) : Placement.obj_dict := {|
  Placement.od_name := "crate";
  Placement.od_group := false;
  Placement.od_asset_path := "";
  Placement.od_location := [0; 10; 0];
  Placement.od_rotation := [0; 45; 0];
  Placement.od_scale := [1; 1; 1];
  Placement.od_raytrace_distance := Some 100;
  Placement.od_raytrace_alignment := alignment;
  Placement.od_raytrace_alignment_mask := mask;
  Placement.od_parent_dcc_name := ""
|}.

(** A world whose redirect table sends the old name of [|P|C] to [|P]. *)
Definition redirected : world := {|
  old_nodes_names_dict := {[ "C#" +:+ uuid_C := "|P" ]};
  units_multiplier := 1;
  calls := []
|}.

(** [promethean_maya.command_switch] with no further typed command. *)
Definition command_switch (h : host) : string -> M (option string) :=
  Dispatch.command_switch (fun _ _ _ => None) h.

Definition newline : string := String "010"%char EmptyString.

End Sample.

(** ** Shapes of the traces left by a placement *)

Module PlacementSpec.
Import Host.

(** Calls that bring the new node into the scene. *)
Definition is_creation (c : call) : Prop :=
  match c with
  | Group _ | ReferenceAsset _ | PolyCube _ => True
  | _ => False
  end.

(** The calls made after the transform is set: nothing, or the parenting
    of the new node. *)
Definition parenting (out : string) (l : list call) : Prop :=
  l = [] \/ exists p, l = [Parent [out] p].

(** A node was created and then placed by exactly the calls [placing]. *)
Definition placed_by (before after : list call) (placing : string -> list call) : Prop :=
  exists out created parented,
    after = before ++ created ++ placing out ++ parented /\
    created <> [] /\ Forall is_creation created /\ parenting out parented.

(** The thresholds of a request can be compared with a dot product: the
    interpreter orders numbers and [None] (Python 2), or both thresholds
    are numbers, or neither is a non-zero number and they are not looked
    at. *)
Definition comparable (h : host) (o : Placement.obj_dict) : Prop :=
  python3 h = false \/
  (is_Some (Placement.od_raytrace_alignment o) /\
   is_Some (Placement.od_raytrace_alignment_mask o)) \/
  Placement.truthy_num (Placement.od_raytrace_alignment o)
    || Placement.truthy_num (Placement.od_raytrace_alignment_mask o) = false.

End PlacementSpec.

(** ** Shapes of traces with respect to undo chunks *)

Module TraceSpec.
Import Py Host Run.

Definition is_undo (c : call) : Prop := c = UndoOpenChunk \/ c = UndoCloseChunk.

(** A computation that only appends calls to the trace, none of them an
    undo-chunk call, whatever its outcome. *)
Definition quiet {A : Type} (m : M A) : Prop :=
  forall w, exists evs,
    calls (snd (m w)) = calls w ++ evs /\ Forall (fun c => ~ is_undo c) evs.

(** The number of chunks left open by a trace that starts with [d] chunks
    open; [None] when a chunk is closed that was never opened. *)
Fixpoint chunk_depth (d : nat) (l : list call) : option nat :=
  match l with
  | [] => Some d
  | UndoOpenChunk :: rest => chunk_depth (S d) rest
  | UndoCloseChunk :: rest =>
      match d with
      | O => None
      | S d' => chunk_depth d' rest
      end
  | _ :: rest => chunk_depth d rest
  end.

(** The command of a line: its first word. *)
Definition command_of (line : string) : string :=
  default EmptyString (head (split " "%char line)).

(** The commands that go through [get_triangle_positions]. *)
Definition vertex_data_command (command : string) : bool :=
  String.eqb command "get_vertex_data_from_scene_objects" ||
  String.eqb command "get_vertex_data_from_scene_object".

(** A stretch of trace that is exactly one undo chunk: it opens a chunk,
    closes it at its very end, and everything in between is matched. *)
Definition one_chunk (l : list call) : Prop :=
  exists inner, l = UndoOpenChunk :: inner ++ [UndoCloseChunk] /\
                forall d, chunk_depth d inner = Some d.

End TraceSpec.

(** ** Names of nodes ([node_to_promethean_name], [pack_dcc_name],
    [unpack_dcc_name]) *)

Module Names.
Import Py Host Run Resolver.

(** [c.lower()] and [c.upper()] on one ASCII character. *)
Definition lower_ascii (c : ascii) : ascii :=
  let n := nat_of_ascii c in
  if ((65 <=? n) && (n <=? 90))%nat then ascii_of_nat (n + 32) else c.

Definition upper_ascii (c : ascii) : ascii :=
  let n := nat_of_ascii c in
  if ((97 <=? n) && (n <=? 122))%nat then ascii_of_nat (n - 32) else c.

(** [s.lower()] and [s.upper()], on ASCII text as the names and UUIDs of
    Maya are. *)
Fixpoint lower (s : string) : string :=
  match s with
  | EmptyString => EmptyString
  | String c rest => String (lower_ascii c) (lower rest)
  end.

Fixpoint upper (s : string) : string :=
  match s with
  | EmptyString => EmptyString
  | String c rest => String (upper_ascii c) (upper rest)
  end.

(** [s.rpartition(sep)[-1]] and [s.split(sep)[-1]]: the text after the
    last [sep], all of [s] when there is none. *)
Definition after_last (sep : ascii) (s : string) : string :=
  List.last (split sep s) EmptyString.

(** [node_to_promethean_name(node_name)] *)
Definition node_to_promethean_name (h : host) (node_name : string) : string :=
  let name := after_last "|" node_name in
  let uuid := ls_uuid h node_name in
  match uuid with
  | u :: _ => if truthy_str name then name +:+ "#" +:+ lower u else EmptyString
  | [] => EmptyString
  end.

(** [nodes_to_promethean_names(nodes)] *)
Definition nodes_to_promethean_names (h : host) (nodes : list string) : list string :=
  map (node_to_promethean_name h) nodes.

(** [pack_dcc_name(dcc_name)] *)
Definition pack_dcc_name (h : host) (dcc_name : string) : outcome string :=
  match ls_uuid h dcc_name with
  | u :: _ => Ret (lower u +:+ "#" +:+ dcc_name)
  | [] => Raise IndexError
  end.

(** [unpack_dcc_name(dcc_name)] *)
Definition unpack_dcc_name (dcc_name : string) : string :=
  upper (after_last "#" dcc_name).

(** [c] does not occur in [s]. *)
Fixpoint without (c : ascii) (s : string) : Prop :=
  match s with
  | EmptyString => True
  | String c' rest => c' <> c /\ without c rest
  end.

End Names.

(** ** Replies on the socket *)

Module ReplySpec.
Import Host.

Definition is_write (c : call) : bool :=
  match c with
  | SocketWrite _ => true
  | _ => false
  end.

(** What was written on the socket so far, oldest first. *)
Definition replies (w : world) : list call := List.filter is_write (calls w).

End ReplySpec.

(** ** Calls made by the transform commands *)

Module BranchSpec.
Import Host.

(** A call of [cmds.move], [cmds.rotate] or [cmds.scale] in the given
    mode. *)
Definition transform_call (relative : bool) (c : call) : Prop :=
  match c with
  | Move _ _ _ _ r | Rotate _ _ _ _ r | Scale _ _ _ _ r => r = relative
  | _ => False
  end.

End BranchSpec.

(** ** The candidates of a ray, from the specification *)

Module RaytraceSpec.
Import Host.

(** The shapes through which an object counts as geometry: its shapes
    when it is a transform, itself otherwise. *)
Definition shapes_of (h : host) (obj : string) : list string :=
  if String.eqb (nodeType h obj) "transform" then listRelatives_shapes h obj else [obj].

(** The number of meshes among them. *)
Definition mesh_count (h : host) (obj : string) : nat :=
  length (List.filter (fun shape => String.eqb (nodeType h shape) "mesh") (shapes_of h obj)).

(** The viewport-visible mesh geometry minus the excluded names: the
    objects in view, in the order of the view, each once for every mesh
    among its shapes, the excluded names left out. *)
Fixpoint visible_from (h : host) (excluded : list (option string)) (objs : list string)
  : list string :=
  match objs with
  | [] => []
  | obj :: rest =>
      (if bool_decide (Some obj ∈ excluded) then [] else repeat obj (mesh_count h obj))
        ++ visible_from h excluded rest
  end.

Definition visible_meshes (h : host) (excluded : list (option string)) : list string :=
  visible_from h excluded (objects_in_view h).

End RaytraceSpec.

(** ** The winding of a triangle, from the specification *)

Module WindingSpec.

(** [dot(normal, cross(p0 - p1, p0 - p2))] computed in exact arithmetic,
    for three points of three coordinates; the normal may have any length,
    and a coordinate it lacks contributes nothing. *)
Definition triple_product (normal : list Q) (p0 p1 p2 : Q * Q * Q) : Q :=
  let '(x0, y0, z0) := p0 in
  let '(x1, y1, z1) := p1 in
  let '(x2, y2, z2) := p2 in
  let cx := (y0 - y1) * (z0 - z2) - (z0 - z1) * (y0 - y2) in
  let cy := (z0 - z1) * (x0 - x2) - (x0 - x1) * (z0 - z2) in
  let cz := (x0 - x1) * (y0 - y2) - (y0 - y1) * (x0 - x2) in
  match normal with
  | [] => 0
  | [nx] => nx * cx
  | [nx; ny] => nx * cx + ny * cy
  | nx :: ny :: nz :: _ => nx * cx + ny * cy + nz * cz
  end.

(** The winding of the triangle does not face against [normal]. *)
Definition faces_normal (normal : list Q) (tri : list (list Q)) : Prop :=
  exists x0 y0 z0 x1 y1 z1 x2 y2 z2,
    tri = [[x0; y0; z0]; [x1; y1; z1]; [x2; y2; z2]] /\
    0 <= triple_product normal (x0, y0, z0) (x1, y1, z1) (x2, y2, z2).

(** [x] is a binary64 value. *)
Definition is_float (x : Q) : Prop := Num.round64 x = x.

End WindingSpec.

(** * Properties *)

Module NumFacts.
Import Num.

(** The rounded operations are the ones of the kernel's binary64 floats,
    here on the operands that the examples below compute with, on ties, on
    negative operands and on subnormal results. *)
Lemma binary64_agrees_with_kernel_floats :
  agree PrimFloat.mul fmul 25 0x1.6dc28f5c28f5cp+6 /\
  agree PrimFloat.mul fmul 0x1.00000004p+0 0x1.fffffff8p-1 /\
  agree PrimFloat.sub fsub 0x1.00000004p+0 1 /\
  agree PrimFloat.add fadd 0x1.999999999999ap-4 0x1.999999999999ap-3 /\
  agree PrimFloat.div fdiv 100 0x1.6dc28f5c28f5cp+6 /\
  agree PrimFloat.div fdiv 1 3 /\
  agree PrimFloat.add fadd 1 0x1p-53 /\
  agree PrimFloat.add fadd 0x1.0000000000001p+0 0x1p-53 /\
  agree PrimFloat.sub fsub (-0x1.8p+1) 0x1.999999999999ap-4 /\
  agree PrimFloat.mul fmul (-0x1.921fb54442d18p+1) 0x1.5bf0a8b145769p+1 /\
  agree PrimFloat.mul fmul 0x1p-1074 0x1p-1 /\
  agree PrimFloat.mul fmul 0x1.8p-1074 0x1p-1 /\
  agree PrimFloat.div fdiv 0x1p-1022 3.
Proof. vm_compute. repeat split; reflexivity. Qed.

End NumFacts.

(** ** The geometry helpers *)

Module GeometryFacts.
Import Num Geometry WindingSpec.

Lemma Qltb_true (x y : Q) : Qltb x y = true <-> x < y.
Proof.
  unfold Qltb. rewrite negb_true_iff.
  destruct (Qle_bool y x) eqn:E.
  - apply Qle_bool_iff in E. split; [discriminate | intros H; lra].
  - split; [intros _ | reflexivity].
    destruct (Qlt_le_dec x y) as [H | H]; [exact H |].
    apply Qle_bool_iff in H. congruence.
Qed.

Lemma Qltb_false (x y : Q) : Qltb x y = false <-> y <= x.
Proof.
  destruct (Qltb x y) eqn:E.
  - apply Qltb_true in E. split; [discriminate | intros H; lra].
  - split; [intros _ | reflexivity].
    destruct (Qlt_le_dec x y) as [H | H]; [| exact H].
    apply Qltb_true in H. congruence.
Qed.

(** C10 (amended). For a triangle of three 3-D points and any normal (a
    list of numbers of any length), [check_winding_order] returns the
    triangle or its reversal, whatever the arithmetic of its numbers; and
    when that arithmetic is exact, as it is on integers, the returned
    triangle [p0, p1, p2] satisfies
    [dot(normal, cross(p0 - p1, p0 - p2)) >= 0]. *)
Theorem check_winding_order_faces_normal_when_exact
    (ar : arith) (x0 y0 z0 x1 y1 z1 x2 y2 z2 : Q) (normal : vec) :
  let tri := [[x0; y0; z0]; [x1; y1; z1]; [x2; y2; z2]] in
  (exists r, check_winding_order ar tri normal = Some r /\ (r = tri \/ r = rev tri)) /\
  (exists r, check_winding_order Exact tri normal = Some r /\
             (r = tri \/ r = rev tri) /\ faces_normal normal r).
Proof.
  intros tri. split.
  - unfold check_winding_order, tri. cbn.
    match goal with |- context [Qltb ?d 0] => destruct (Qltb d 0) end;
      eexists; (split; [reflexivity |]); [by right | by left].
  - unfold check_winding_order, tri. cbn.
    match goal with |- context [Qltb ?d 0] => destruct (Qltb d 0) eqn:E end.
    + eexists; split; [reflexivity |]. split; [right; reflexivity |].
      apply Qltb_true in E. cbn.
      do 9 eexists. split; [reflexivity |].
      destruct normal as [| nx [| ny [| nz [| nw rest]]]];
        unfold dot, triple_product in *; cbn in *; lra.
    + eexists; split; [reflexivity |]. split; [left; reflexivity |].
      apply Qltb_false in E.
      do 9 eexists. split; [reflexivity |].
      destruct normal as [| nx [| ny [| nz [| nw rest]]]];
        unfold dot, triple_product in *; cbn in *; lra.
Qed.

(** C10, counterexample. On floats the sign is that of the rounded
    product: the triangle [(0, 0, 0), (1 + 2^-30, 1, 0), (1, 1 - 2^-30, 0)],
    whose coordinates are binary64 values, is returned as it is for the
    normal [(0, 0, 1)], although [dot(normal, cross(p0 - p1, p0 - p2))] is
    [-2^-60]. *)
Lemma check_winding_order_rounding_keeps_wrong_winding :
  let tri := [[0; 0; 0]; [1 + 1 / 2 ^ 30; 1; 0]; [1; 1 - 1 / 2 ^ 30; 0]] in
  Forall (Forall is_float) tri /\
  check_winding_order Binary64 tri [0; 0; 1] = Some tri /\
  triple_product [0; 0; 1] (0, 0, 0) (1 + 1 / 2 ^ 30, 1, 0) (1, 1 - 1 / 2 ^ 30, 0)
    == - (1 / 2 ^ 60) /\
  ~ faces_normal [0; 0; 1] tri.
Proof.
  cbn zeta. split; [repeat constructor |]. split; [by vm_compute |].
  split; [by vm_compute |].
  intros (a0 & b0 & c0 & a1 & b1 & c1 & a2 & b2 & c2 & [= <- <- <- <- <- <- <- <- <-] & H).
  revert H. vm_compute. intros H. by apply H.
Qed.

End GeometryFacts.

(** ** The identity resolver *)

Module ResolverFacts.
Import Py Host Run Resolver.

Lemma append_cons (c : ascii) (s1 s2 : string) :
  String c s1 +:+ s2 = String c (s1 +:+ s2).
Proof. reflexivity. Qed.

Lemma append_assoc (s1 s2 s3 : string) : (s1 +:+ s2) +:+ s3 = s1 +:+ s2 +:+ s3.
Proof.
  induction s1 as [| c s1 IH]; [reflexivity |].
  rewrite !append_cons. by rewrite IH.
Qed.

Lemma hex_run_iff (n : nat) (s r : string) :
  hex_run n s = Some r <-> exists t, s = t +:+ r /\ hexes n t.
Proof.
  revert s. induction n as [| n IH]; intros s; cbn [hex_run].
  - split.
    + intros [= ->]. by exists EmptyString.
    + intros ([| c t] & -> & Ht); [reflexivity | destruct Ht].
  - destruct s as [| c s].
    + split; [discriminate |]. intros ([| c t] & Hs & Ht); [destruct Ht | discriminate].
    + destruct (is_hex c) eqn:Hc.
      * rewrite IH. split.
        -- intros (t & -> & Ht). exists (String c t). by split.
        -- intros ([| c' t] & Hs & Ht); [destruct Ht |].
           rewrite append_cons in Hs. injection Hs as <- ->.
           destruct Ht as [_ Ht]. by exists t.
      * split; [discriminate |].
        intros ([| c' t] & Hs & Ht); [destruct Ht |].
        rewrite append_cons in Hs. injection Hs as <- ->.
        destruct Ht as [Hc' _]. congruence.
Qed.

Lemma dash_iff (s r : string) : dash s = Some r <-> s = "-" +:+ r.
Proof.
  change ("-" +:+ r) with (String "-" r).
  destruct s as [| c s]; cbn [dash]; [split; discriminate |].
  destruct (Ascii.eqb c "-") eqn:Hc.
  - apply Ascii.eqb_eq in Hc as ->. split; [by intros [= ->] | by intros [= ->]].
  - apply Ascii.eqb_neq in Hc. split; [discriminate | intros [= -> _]; done].
Qed.

Lemma hex_run_app (n : nat) (t r : string) : hexes n t -> hex_run n (t +:+ r) = Some r.
Proof. intros Ht. apply hex_run_iff. by exists t. Qed.

Lemma dash_app (r : string) : "-" +:+ r = String "-" r.
Proof. reflexivity. Qed.

Lemma dash_cons (r : string) : dash (String "-" r) = Some r.
Proof. reflexivity. Qed.

Lemma hexes_length (n : nat) (t : string) : hexes n t -> String.length t = n.
Proof.
  revert t. induction n as [| n IH]; intros [| c t] H; try destruct H; cbn; [done |].
  by rewrite IH.
Qed.

(** The anchored pattern matches exactly the strings that start with a
    UUID. *)
Lemma uuid_match_here_iff (s : string) :
  uuid_match_here s = true <-> exists u r, s = u +:+ r /\ uuid_shape u.
Proof.
  unfold uuid_match_here. split.
  - destruct (hex_run 8 s) as [s1 |] eqn:H1; cbn [mbind option_bind]; [| discriminate].
    destruct (dash s1) as [s2 |] eqn:H2; cbn [mbind option_bind]; [| discriminate].
    destruct (hex_run 4 s2) as [s3 |] eqn:H3; cbn [mbind option_bind]; [| discriminate].
    destruct (dash s3) as [s4 |] eqn:H4; cbn [mbind option_bind]; [| discriminate].
    destruct (hex_run 4 s4) as [s5 |] eqn:H5; cbn [mbind option_bind]; [| discriminate].
    destruct (dash s5) as [s6 |] eqn:H6; cbn [mbind option_bind]; [| discriminate].
    destruct (hex_run 4 s6) as [s7 |] eqn:H7; cbn [mbind option_bind]; [| discriminate].
    destruct (dash s7) as [s8 |] eqn:H8; cbn [mbind option_bind]; [| discriminate].
    destruct (hex_run 12 s8) as [s9 |] eqn:H9; cbn [mbind option_bind]; [| discriminate].
    intros _.
    apply hex_run_iff in H1 as (a & -> & Ha). apply dash_iff in H2 as ->.
    apply hex_run_iff in H3 as (b & -> & Hb). apply dash_iff in H4 as ->.
    apply hex_run_iff in H5 as (c & -> & Hc). apply dash_iff in H6 as ->.
    apply hex_run_iff in H7 as (d & -> & Hd). apply dash_iff in H8 as ->.
    apply hex_run_iff in H9 as (e & -> & He).
    exists (a +:+ "-" +:+ b +:+ "-" +:+ c +:+ "-" +:+ d +:+ "-" +:+ e), s9. split.
    + by rewrite !append_assoc.
    + by exists a, b, c, d, e.
  - intros (u & r & -> & a & b & c & d & e & -> & Ha & Hb & Hc & Hd & He).
    rewrite !append_assoc, !dash_app.
    rewrite (hex_run_app 8 a _ Ha). cbn [mbind option_bind]. rewrite dash_cons.
    cbn [mbind option_bind].
    rewrite (hex_run_app 4 b _ Hb). cbn [mbind option_bind]. rewrite dash_cons.
    cbn [mbind option_bind].
    rewrite (hex_run_app 4 c _ Hc). cbn [mbind option_bind]. rewrite dash_cons.
    cbn [mbind option_bind].
    rewrite (hex_run_app 4 d _ Hd). cbn [mbind option_bind]. rewrite dash_cons.
    cbn [mbind option_bind].
    by rewrite (hex_run_app 12 e _ He).
Qed.

Lemma length_append (s1 s2 : string) :
  String.length (s1 +:+ s2) = (String.length s1 + String.length s2)%nat.
Proof. induction s1 as [| c s1 IH]; [reflexivity |]. rewrite append_cons. cbn. by rewrite IH. Qed.

Lemma substring_prefix (u r : string) : String.substring 0 (String.length u) (u +:+ r) = u.
Proof.
  induction u as [| c u IH]; [by destruct r |].
  rewrite append_cons. cbn. by rewrite IH.
Qed.

Lemma uuid_shape_length (u : string) : uuid_shape u -> String.length u = 36%nat.
Proof.
  intros (a & b & c & d & e & -> & Ha & Hb & Hc & Hd & He).
  rewrite !length_append.
  rewrite (hexes_length _ _ Ha), (hexes_length _ _ Hb), (hexes_length _ _ Hc),
    (hexes_length _ _ Hd), (hexes_length _ _ He).
  reflexivity.
Qed.

(** What [uuid_regex.search] finds is a UUID that the name contains... *)
Lemma uuid_search_some (s u : string) :
  uuid_search s = Some u ->
  uuid_shape u /\ exists pre post, s = pre +:+ u +:+ post.
Proof.
  revert u. induction s as [| c s IH]; intros u; cbn [uuid_search].
  - destruct (uuid_match_here EmptyString) eqn:Hm; [| discriminate].
    apply uuid_match_here_iff in Hm as (u0 & r & Hs & Hu).
    apply uuid_shape_length in Hu. destruct u0; discriminate.
  - destruct (uuid_match_here (String c s)) eqn:Hm.
    + apply uuid_match_here_iff in Hm as (u0 & r & Hs & Hu).
      intros Heq.
      assert (Hsub : String.substring 0 36 (String c s) = u0).
      { rewrite Hs, <- (uuid_shape_length _ Hu). apply substring_prefix. }
      rewrite Hsub in Heq. injection Heq as <-.
      split; [exact Hu |]. by exists EmptyString, r.
    + intros Hrest. destruct (IH _ Hrest) as (Hu & pre & post & ->).
      split; [exact Hu |]. by exists (String c pre), post.
Qed.

(** ... and it finds one whenever the name contains a UUID. *)
Lemma uuid_search_none (s : string) :
  uuid_search s = None ->
  forall pre u post, s = pre +:+ u +:+ post -> ~ uuid_shape u.
Proof.
  induction s as [| c s IH]; cbn [uuid_search].
  - destruct (uuid_match_here EmptyString) eqn:Hm; [discriminate |].
    intros _ pre u post Hs Hu.
    destruct pre; [| discriminate]. apply uuid_shape_length in Hu.
    destruct u; discriminate.
  - destruct (uuid_match_here (String c s)) eqn:Hm; [discriminate |].
    intros Hrest pre u post Hs Hu. destruct pre as [| c' pre].
    + assert (Hm' : uuid_match_here (String c s) = true)
        by (apply uuid_match_here_iff; by exists u, post).
      congruence.
    + rewrite append_cons in Hs. injection Hs as <- ->.
      by apply (IH Hrest pre u post).
Qed.

Lemma append_same_length (s1 s2 t1 t2 : string) :
  s1 +:+ t1 = s2 +:+ t2 -> String.length s1 = String.length s2 -> s1 = s2 /\ t1 = t2.
Proof.
  revert s2. induction s1 as [| c s1 IH]; intros [| c2 s2] Heq Hlen; try discriminate.
  - by split.
  - rewrite !append_cons in Heq. injection Heq as -> Heq. cbn in Hlen.
    destruct (IH s2 Heq) as [-> ->]; [lia | by split].
Qed.

(** What [uuid_regex.search] finds is the leftmost UUID of the name. *)
Lemma uuid_search_leftmost (s u : string) :
  uuid_search s = Some u -> leftmost_uuid s u.
Proof.
  revert u. induction s as [| c s IH]; intros u; cbn [uuid_search].
  - destruct (uuid_match_here EmptyString) eqn:Hm; [| discriminate].
    apply uuid_match_here_iff in Hm as (u0 & r & Hs & Hu).
    apply uuid_shape_length in Hu. destruct u0; discriminate.
  - destruct (uuid_match_here (String c s)) eqn:Hm.
    + apply uuid_match_here_iff in Hm as (u0 & r & Hs & Hu).
      intros Heq.
      assert (Hsub : String.substring 0 36 (String c s) = u0).
      { rewrite Hs, <- (uuid_shape_length _ Hu). apply substring_prefix. }
      rewrite Hsub in Heq. injection Heq as <-.
      split; [exact Hu |]. exists EmptyString, r. split; [exact Hs |].
      intros; cbn; lia.
    + intros Hrest. destruct (IH _ Hrest) as (Hu & pre & post & -> & Hmin).
      split; [exact Hu |]. exists (String c pre), post. split; [reflexivity |].
      intros pre' u' post' Hs' Hu'. destruct pre' as [| c' pre'].
      * assert (Hm' : uuid_match_here (String c (pre +:+ u +:+ post)) = true)
          by (apply uuid_match_here_iff; by exists u', post').
        congruence.
      * rewrite !append_cons in Hs'. injection Hs' as _ Hs'.
        cbn. specialize (Hmin pre' u' post' Hs' Hu'). lia.
Qed.

Lemma leftmost_uuid_unique (s u u' : string) :
  leftmost_uuid s u -> leftmost_uuid s u' -> u = u'.
Proof.
  intros (Hu & pre & post & Hs & Hmin) (Hu' & pre' & post' & Hs' & Hmin').
  pose proof (Hmin pre' u' post' Hs' Hu') as H1.
  pose proof (Hmin' pre u post Hs Hu) as H2.
  rewrite Hs in Hs'.
  destruct (append_same_length _ _ _ _ Hs') as [_ Hrest]; [lia |].
  destruct (append_same_length _ _ _ _ Hrest) as [Heq _]; [| exact Heq].
  by rewrite (uuid_shape_length _ Hu), (uuid_shape_length _ Hu').
Qed.

Lemma by_id_then_label_intro (h : host) (p_name : string) :
  by_id_then_label h p_name
    match uuid_search p_name with
    | Some uuid => head (ls_by_uuid h uuid)
    | None => match ls_long h p_name with [n] => Some n | _ => None end
    end.
Proof.
  destruct (uuid_search p_name) as [uuid |] eqn:Hsearch.
  - pose proof (uuid_search_leftmost _ _ Hsearch) as Hleft.
    split; [left; by exists uuid |]. split.
    + intros u Hu. by rewrite (leftmost_uuid_unique _ _ _ Hu Hleft).
    + intros Hnone. destruct Hleft as (Hshape & pre & post & Hs & _).
      destruct (Hnone pre uuid post Hs Hshape).
  - pose proof (uuid_search_none _ Hsearch) as Hnone.
    split; [by right |]. split.
    + intros u (Hshape & pre & post & Hs & _). destruct (Hnone pre u post Hs Hshape).
    + intros _ n.
      destruct (ls_long h p_name) as [| a [| b l]]; split; congruence.
Qed.

Lemma fall_through_eq (h : host) (p_name : string) (w : world) :
  (match uuid_search p_name with
   | Some uuid =>
       match ls_by_uuid h uuid with
       | n :: _ => ret (Some n)
       | [] => ret None
       end
   | None =>
       if (length (ls_long h p_name) =? 1)%nat then
         bind (item0 (ls_long h p_name)) (fun n => ret (Some n))
       else ret None
   end) w =
  (Ret match uuid_search p_name with
       | Some uuid => head (ls_by_uuid h uuid)
       | None => match ls_long h p_name with [n] => Some n | _ => None end
       end, w).
Proof.
  destruct (uuid_search p_name) as [uuid |].
  - destruct (ls_by_uuid h uuid); reflexivity.
  - destruct (ls_long h p_name) as [| a [| b l]]; reflexivity.
Qed.

(** The resolver never raises and touches nothing but the redirect table. *)
Lemma get_node_total (h : host) (p_name : string) (w : world) :
  exists res w',
    get_node_from_promethean_name h p_name w = (Ret res, w') /\
    calls w' = calls w /\ units_multiplier w' = units_multiplier w.
Proof.
  unfold get_node_from_promethean_name, bind, get.
  destruct (old_nodes_names_dict w !! p_name) as [r |].
  - destruct (truthy_str r); [destruct (truthy_list (ls h r)) |]; cbn;
      rewrite ?fall_through_eq; do 2 eexists; (split; [reflexivity |]); split; reflexivity.
  - cbn. rewrite fall_through_eq. do 2 eexists. split; [reflexivity |]. split; reflexivity.
Qed.



End ResolverFacts.

(** ** Names of nodes *)

Module NamesFacts.
Import Py Host Run Resolver Names ResolverFacts.

Lemma is_hex_lower (c : ascii) : is_hex (lower_ascii c) = is_hex c.
Proof. destruct c as [[] [] [] [] [] [] [] []]; reflexivity. Qed.

Lemma is_hex_upper (c : ascii) : is_hex (upper_ascii c) = is_hex c.
Proof. destruct c as [[] [] [] [] [] [] [] []]; reflexivity. Qed.

Lemma upper_lower_ascii (c : ascii) : upper_ascii (lower_ascii c) = upper_ascii c.
Proof. destruct c as [[] [] [] [] [] [] [] []]; reflexivity. Qed.

Lemma lower_app (s1 s2 : string) : lower (s1 +:+ s2) = lower s1 +:+ lower s2.
Proof. induction s1 as [| c s1 IH]; [reflexivity |]. rewrite append_cons. cbn. by rewrite IH. Qed.

Lemma upper_app (s1 s2 : string) : upper (s1 +:+ s2) = upper s1 +:+ upper s2.
Proof. induction s1 as [| c s1 IH]; [reflexivity |]. rewrite append_cons. cbn. by rewrite IH. Qed.

Lemma upper_lower (s : string) : upper (lower s) = upper s.
Proof. induction s as [| c s IH]; [reflexivity |]. cbn. by rewrite IH, upper_lower_ascii. Qed.

Lemma hexes_lower (n : nat) (t : string) : hexes n t -> hexes n (lower t).
Proof.
  revert t. induction n as [| n IH]; intros [| c t] H; try destruct H; cbn; [done |].
  split; [by rewrite is_hex_lower | by apply IH].
Qed.

Lemma hexes_upper (n : nat) (t : string) : hexes n t -> hexes n (upper t).
Proof.
  revert t. induction n as [| n IH]; intros [| c t] H; try destruct H; cbn; [done |].
  split; [by rewrite is_hex_upper | by apply IH].
Qed.

(** Changing the case of a UUID leaves a UUID. *)
Lemma uuid_shape_lower (u : string) : uuid_shape u -> uuid_shape (lower u).
Proof.
  intros (a & b & c & d & e & -> & Ha & Hb & Hc & Hd & He).
  exists (lower a), (lower b), (lower c), (lower d), (lower e).
  rewrite !lower_app. repeat split; by apply hexes_lower.
Qed.

Lemma uuid_shape_upper (u : string) : uuid_shape u -> uuid_shape (upper u).
Proof.
  intros (a & b & c & d & e & -> & Ha & Hb & Hc & Hd & He).
  exists (upper a), (upper b), (upper c), (upper d), (upper e).
  rewrite !upper_app. repeat split; by apply hexes_upper.
Qed.

Lemma append_nil_r (s : string) : s +:+ EmptyString = s.
Proof. induction s as [| c s IH]; [reflexivity |]. rewrite append_cons. by rewrite IH. Qed.

Lemma split_nonempty (sep : ascii) (s : string) : split sep s <> [].
Proof.
  destruct s as [| c s]; cbn; [done |].
  destruct (Ascii.eqb c sep); [done |]. by destruct (split sep s).
Qed.

(** [(l + sep + r).split(sep) = l.split(sep) + r.split(sep)] *)
Lemma split_app (sep : ascii) (l r : string) :
  split sep (l +:+ String sep r) = split sep l ++ split sep r.
Proof.
  induction l as [| c l IH].
  - change (EmptyString +:+ String sep r) with (String sep r). cbn.
    by rewrite Ascii.eqb_refl.
  - rewrite append_cons. cbn [split]. rewrite IH.
    destruct (Ascii.eqb c sep); [reflexivity |].
    pose proof (split_nonempty sep l) as Hl.
    destruct (split sep l) as [| cur more]; [done | reflexivity].
Qed.

Lemma split_without (sep : ascii) (s : string) : without sep s -> split sep s = [s].
Proof.
  induction s as [| c s IH]; [reflexivity |]. intros [Hc Hs]. cbn.
  apply Ascii.eqb_neq in Hc. by rewrite Hc, (IH Hs).
Qed.

Lemma after_last_app (sep : ascii) (l r : string) :
  without sep r -> after_last sep (l +:+ String sep r) = r.
Proof.
  intros Hr. unfold after_last. rewrite split_app, (split_without sep r Hr).
  apply last_last.
Qed.

Lemma without_app (c : ascii) (s1 s2 : string) :
  without c s1 -> without c s2 -> without c (s1 +:+ s2).
Proof.
  induction s1 as [| c1 s1 IH]; [done |]. intros [Hc H1] H2.
  rewrite append_cons. split; [exact Hc | by apply IH].
Qed.

Lemma hexes_without_hash (n : nat) (t : string) : hexes n t -> without "#" t.
Proof.
  revert t. induction n as [| n IH]; intros [| c t] H; try destruct H; [done |].
  split; [intros -> ; discriminate | by apply IH].
Qed.

Lemma uuid_shape_without_hash (u : string) : uuid_shape u -> without "#" u.
Proof.
  intros (a & b & c & d & e & -> & Ha & Hb & Hc & Hd & He).
  repeat (apply without_app; [by eapply hexes_without_hash |];
          apply (without_app _ "-"); [by split |]).
  by eapply hexes_without_hash.
Qed.

(** A label without [-] holds no match of the UUID pattern, nor does a match
    start in it when [#] follows. *)
Lemma hex_run_then_dash (n : nat) (l rest : string) :
  without "-" l ->
  match hex_run n (l +:+ String "#" rest) with
  | Some s1 => dash s1 = None
  | None => True
  end.
Proof.
  revert l. induction n as [| n IH]; intros l Hl.
  - destruct l as [| c l]; [reflexivity |]. destruct Hl as [Hc _].
    rewrite append_cons. cbn. apply Ascii.eqb_neq in Hc. by rewrite Hc.
  - destruct l as [| c l]; [reflexivity |]. destruct Hl as [_ Hl].
    rewrite append_cons. cbn [hex_run]. destruct (is_hex c); [by apply IH | done].
Qed.

Lemma uuid_match_here_label (l rest : string) :
  without "-" l -> uuid_match_here (l +:+ String "#" rest) = false.
Proof.
  intros Hl. unfold uuid_match_here.
  pose proof (hex_run_then_dash 8 l rest Hl) as H.
  destruct (hex_run 8 (l +:+ String "#" rest)) as [s1 |]; [| reflexivity].
  cbn [mbind option_bind]. by rewrite H.
Qed.

Lemma uuid_search_label (l rest : string) :
  without "-" l -> uuid_search (l +:+ String "#" rest) = uuid_search rest.
Proof.
  induction l as [| c l IH]; intros Hl.
  - pose proof (uuid_match_here_label EmptyString rest Hl) as Hm.
    change (EmptyString +:+ String "#" rest) with (String "#" rest) in *.
    cbn [uuid_search]. by rewrite Hm.
  - pose proof (uuid_match_here_label (String c l) rest Hl) as Hm.
    rewrite append_cons in *. cbn [uuid_search]. rewrite Hm.
    destruct Hl as [_ Hl]. by apply IH.
Qed.

Lemma uuid_search_uuid (u : string) : uuid_shape u -> uuid_search u = Some u.
Proof.
  intros Hu. pose proof (uuid_shape_length u Hu) as Hlen.
  assert (Hm : uuid_match_here u = true).
  { apply uuid_match_here_iff. exists u, EmptyString. by rewrite append_nil_r. }
  destruct u as [| c u]; [discriminate |].
  cbn [uuid_search]. rewrite Hm. f_equal.
  rewrite <- Hlen. rewrite <- (append_nil_r (String c u)) at 2.
  apply substring_prefix.
Qed.

(** X1. Naming a node and resolving the name come back to the node's id:
    for a node that the session gives a UUID and whose label is not empty
    and holds no [-], the name [label#uuid] made by
    [node_to_promethean_name] is resolved by
    [get_node_from_promethean_name], when no redirect is recorded for it, to
    what the session answers for that UUID in lower case; the redirect table
    is left alone. *)
Theorem name_then_resolve (h : host) (node u : string) (us : list string) (w : world) :
  ls_uuid h node = u :: us ->
  uuid_shape u ->
  after_last "|" node <> EmptyString ->
  without "-" (after_last "|" node) ->
  old_nodes_names_dict w !! node_to_promethean_name h node = None ->
  node_to_promethean_name h node = after_last "|" node +:+ "#" +:+ lower u /\
  get_node_from_promethean_name h (node_to_promethean_name h node) w
    = (Ret (head (ls_by_uuid h (lower u))), w).
Proof.
  intros Hu Hshape Hne Hdash Hnone.
  assert (Hname : node_to_promethean_name h node = after_last "|" node +:+ "#" +:+ lower u).
  { unfold node_to_promethean_name. rewrite Hu.
    destruct (after_last "|" node); [done | reflexivity]. }
  split; [exact Hname |].
  unfold get_node_from_promethean_name, bind, get. rewrite Hnone. cbn.
  rewrite fall_through_eq. rewrite Hname.
  change ("#" +:+ lower u) with (String "#" (lower u)).
  rewrite (uuid_search_label _ _ Hdash), (uuid_search_uuid _ (uuid_shape_lower _ Hshape)).
  reflexivity.
Qed.

Lemma uuid_C_shape : uuid_shape Sample.uuid_C.
Proof.
  exists "00000000", "0000", "0000", "0000", "000000000002".
  split; [reflexivity |]. cbn. tauto.
Qed.

Lemma name_then_resolve_witness :
  get_node_from_promethean_name (Sample.scene true [0; 1; 0])
    (node_to_promethean_name (Sample.scene true [0; 1; 0]) "|P|C") Sample.world0
    = (Ret (Some Sample.uuid_C), Sample.world0).
Proof.
  destruct (name_then_resolve (Sample.scene true [0; 1; 0]) "|P|C" Sample.uuid_C []
              Sample.world0) as [_ Hrun].
  - reflexivity.
  - exact uuid_C_shape.
  - discriminate.
  - vm_compute. split; [discriminate | exact I].
  - reflexivity.
  - exact Hrun.
Defined.

(** X2. [unpack_dcc_name] takes the id out of a name: applied to
    [label#uuid] it gives the UUID in upper case, whatever the label is. *)
Theorem unpack_name (label u : string) :
  uuid_shape u ->
  unpack_dcc_name (label +:+ "#" +:+ lower u) = upper u /\ uuid_shape (upper u).
Proof.
  intros Hu. split; [| by apply uuid_shape_upper].
  unfold unpack_dcc_name. change ("#" +:+ lower u) with (String "#" (lower u)).
  rewrite after_last_app; [apply upper_lower |].
  apply uuid_shape_without_hash. by apply uuid_shape_lower.
Qed.

Lemma unpack_name_witness :
  unpack_dcc_name ("C#" +:+ lower Sample.uuid_C) = upper Sample.uuid_C.
Proof. exact (proj1 (unpack_name "C" Sample.uuid_C uuid_C_shape)). Defined.

End NamesFacts.

(** ** The raytrace engine *)

Module RaytraceFacts.
Import Num Geometry Py Host Run Raytrace RaytraceSpec GeometryFacts.

Section Scan.
Variables (h : host) (source_point : vec).

Local Abbreviation d := (fun x : hit => distanceTo h (snd (fst x)) source_point).
Local Abbreviation scan := (closer h source_point).

Lemma scan_none (l : list hit) : fold_left scan l None = None -> l = [].
Proof.
  induction l as [| a l IH] using rev_ind; [reflexivity |].
  rewrite fold_left_app. cbn.
  destruct (fold_left scan l None) as [[c best] |]; cbn; [| discriminate].
  destruct (Qltb _ best); discriminate.
Qed.

Lemma scan_first_closest (l : list hit) (x : hit) (dx : Q) :
  fold_left scan l None = Some (x, dx) -> dx = d x /\ first_closest d l x.
Proof.
  revert x dx. induction l as [| a l IH] using rev_ind; intros x dx; [discriminate |].
  rewrite fold_left_app. cbn.
  destruct (fold_left scan l None) as [[c best] |] eqn:E; cbn.
  - destruct (IH c best eq_refl) as [-> (l1 & l2 & -> & Hbefore & Hafter)].
    destruct (Qltb (d a) (d c)) eqn:Hlt; intros [= <- <-].
    + split; [reflexivity |]. apply Qltb_true in Hlt.
      exists (l1 ++ c :: l2), []. split; [reflexivity |]. split.
      * intros y Hy. apply elem_of_app in Hy as [Hy | Hy].
        -- specialize (Hbefore y Hy). lra.
        -- apply elem_of_cons in Hy as [-> | Hy]; [exact Hlt |].
           specialize (Hafter y Hy). lra.
      * intros y Hy. inversion Hy.
    + split; [reflexivity |]. apply Qltb_false in Hlt.
      exists l1, (l2 ++ [a]). split; [by rewrite <- app_assoc |]. split.
      * exact Hbefore.
      * intros y Hy. apply elem_of_app in Hy as [Hy | Hy]; [by apply Hafter |].
        apply list_elem_of_singleton in Hy as ->. exact Hlt.
  - intros [= <- <-]. apply scan_none in E as ->.
    split; [reflexivity |]. exists [], []. split; [reflexivity |].
    split; intros y Hy; inversion Hy.
Qed.
End Scan.

Lemma omap_split {A B : Type} (f : A -> option B) (l : list A) (r1 r2 : list B) (x : B) :
  omap f l = r1 ++ x :: r2 ->
  exists l1 a l2, l = l1 ++ a :: l2 /\ f a = Some x /\ omap f l1 = r1 /\ omap f l2 = r2.
Proof.
  revert r1. induction l as [| a l IH]; intros r1 H; cbn in H.
  - destruct r1; discriminate.
  - destruct (f a) as [b |] eqn:Hfa.
    + destruct r1 as [| b' r1]; cbn in H.
      * injection H as -> Hr. exists [], a, l. by repeat split.
      * injection H as -> Hr. destruct (IH _ Hr) as (l1 & a' & l2 & -> & Ha' & H1 & H2).
        exists (a :: l1), a', l2. repeat split; try done. cbn. by rewrite Hfa, H1.
    + destruct (IH _ H) as (l1 & a' & l2 & -> & Ha' & H1 & H2).
      exists (a :: l1), a', l2. repeat split; try done. cbn. by rewrite Hfa, H1.
Qed.

Lemma omap_nil_inv {A B : Type} (f : A -> option B) (l : list A) :
  omap f l = [] -> forall a, a ∈ l -> f a = None.
Proof.
  induction l as [| a l IH]; intros H b Hb; [inversion Hb |].
  cbn in H. destruct (f a) eqn:Hfa; [discriminate |].
  apply elem_of_cons in Hb as [-> | Hb]; [exact Hfa | by apply IH].
Qed.

Lemma elem_of_omap_some {A B : Type} (f : A -> option B) (l : list A) (a : A) (b : B) :
  a ∈ l -> f a = Some b -> b ∈ omap f l.
Proof. intros Ha Hb. apply list_elem_of_omap. eauto. Qed.

(** The geometry in view: the objects in view that are meshes or have a
    mesh among their shapes. *)
Lemma elem_of_get_geometry_in_view (h : host) (obj : string) :
  obj ∈ get_geometry_in_view h <->
  obj ∈ objects_in_view h /\
  exists shape,
    shape ∈ (if String.eqb (nodeType h obj) "transform"
             then listRelatives_shapes h obj else [obj]) /\
    nodeType h shape = "mesh".
Proof.
  unfold get_geometry_in_view. rewrite list_elem_of_In, in_flat_map. split.
  - intros (o & Ho & Hin). apply in_flat_map in Hin as (shape & Hs & Hin).
    destruct (String.eqb (nodeType h shape) "mesh") eqn:Hm; [| destruct Hin].
    destruct Hin as [-> | []]. split; [by apply list_elem_of_In |].
    exists shape. split; [by apply list_elem_of_In | by apply String.eqb_eq].
  - intros (Ho & shape & Hs & Hm). exists obj. split; [by apply list_elem_of_In |].
    apply in_flat_map. exists shape. split; [by apply list_elem_of_In |].
    apply String.eqb_eq in Hm. rewrite Hm. by left.
Qed.

Lemma filter_repeat {A : Type} (P : A -> Prop) `{!forall x, Decision (P x)} (x : A) (n : nat) :
  filter P (repeat x n) = if bool_decide (P x) then repeat x n else [].
Proof.
  induction n as [| n IH]; cbn [repeat]; [by destruct (bool_decide (P x)) |].
  rewrite filter_cons, IH. destruct (decide (P x)) as [Hx | Hx].
  - by rewrite (bool_decide_eq_true_2 _ Hx).
  - by rewrite (bool_decide_eq_false_2 _ Hx).
Qed.

Lemma flat_map_mesh (h : host) (obj : string) (shapes : list string) :
  flat_map (fun shape => if String.eqb (nodeType h shape) "mesh" then [obj] else []) shapes
    = repeat obj
        (length (List.filter (fun shape => String.eqb (nodeType h shape) "mesh") shapes)).
Proof.
  induction shapes as [| shape shapes IH]; [reflexivity |]. cbn.
  destruct (String.eqb (nodeType h shape) "mesh"); cbn; by rewrite IH.
Qed.

(** The candidates of [raytrace] are the viewport-visible mesh geometry
    minus the excluded names. *)
Lemma meshes_in_view_spec (h : host) (ignore_dcc_names : list (option string)) :
  filter (fun x => ~ (Some x ∈ ignore_dcc_names)) (get_geometry_in_view h)
    = visible_meshes h ignore_dcc_names.
Proof.
  unfold get_geometry_in_view, visible_meshes.
  induction (objects_in_view h) as [| obj objs IH]; [reflexivity |].
  cbn [flat_map visible_from]. rewrite filter_app, IH. f_equal.
  rewrite flat_map_mesh, filter_repeat. fold (shapes_of h obj). fold (mesh_count h obj).
  destruct (decide (Some obj ∈ ignore_dcc_names)) as [Hin | Hin].
  - rewrite (bool_decide_eq_true_2 _ Hin), bool_decide_eq_false_2; [reflexivity | tauto].
  - rewrite (bool_decide_eq_false_2 _ Hin), bool_decide_eq_true_2; [reflexivity | exact Hin].
Qed.

Lemma py_div_ok (x y : Q) (w : world) :
  ~ y == 0 -> py_div x y w = (Ret (fdiv x y), w).
Proof.
  intros Hy. unfold py_div. destruct (Qeq_bool y 0) eqn:E; [| reflexivity].
  apply Qeq_bool_iff in E. contradiction.
Qed.

Lemma py_div_zero (x y : Q) (w : world) :
  y == 0 -> py_div x y w = (Raise ZeroDivisionError, w).
Proof.
  intros Hy. unfold py_div. apply Qeq_bool_iff in Hy. by rewrite Hy.
Qed.

Lemma py_div_world (x y : Q) (w : world) : exists r, py_div x y w = (r, w).
Proof. unfold py_div. destruct (Qeq_bool y 0); by eexists. Qed.

Lemma div_all_ok (l : list Q) (y : Q) (w : world) :
  ~ y == 0 -> div_all l y w = (Ret (map (fun x => fdiv x y) l), w).
Proof.
  intros Hy. induction l as [| x l IH]; [reflexivity |]. cbn [div_all map].
  unfold bind. by rewrite (py_div_ok _ _ _ Hy), IH.
Qed.

Lemma div_all_world (l : list Q) (y : Q) (w : world) : exists r, div_all l y w = (r, w).
Proof.
  induction l as [| x l [r IH]]; [by eexists |]. cbn [div_all]. unfold bind.
  destruct (py_div_world x y w) as [[q | e] ->]; [| by eexists].
  rewrite IH. destruct r; by eexists.
Qed.

(** [raytrace] only asks the session questions... *)
Lemma raytrace_world (h : host) (start_point direction : vec) (distance : Q)
    (ignore_dcc_names : list (option string)) (w : world) :
  exists r, raytrace h start_point direction distance ignore_dcc_names w = (r, w).
Proof.
  unfold raytrace. unfold bind at 1, get.
  destruct (negb (truthy_list _)); [by eexists |].
  destruct (negb (contains _ _)); [by eexists |].
  destruct (fold_left _ _ None) as [[c dc] |]; [| by eexists].
  unfold bind. destruct (div_all_world (snd (fst c)) (units_multiplier w) w) as [[q | e] ->];
    by eexists.
Qed.

(** ... and returns when the unit factor is not zero. *)
Lemma raytrace_total (h : host) (start_point direction : vec) (distance : Q)
    (ignore_dcc_names : list (option string)) (w : world) :
  ~ units_multiplier w == 0 ->
  exists res, raytrace h start_point direction distance ignore_dcc_names w = (Ret res, w).
Proof.
  intros Hum. unfold raytrace. unfold bind at 1, get.
  destruct (negb (truthy_list _)); [by eexists |].
  destruct (negb (contains _ _)); [by eexists |].
  destruct (fold_left _ _ None) as [[c dc] |]; [| by eexists].
  unfold bind. rewrite (div_all_ok _ _ _ Hum). by eexists.
Qed.

(** The maximum distance handed to the session is the truncation of the
    rounded product: for a distance of [25] in yards ([91.44] cm) it is
    [2286], where the exact product of the two floats truncates to
    [2285]. *)
Lemma max_distance_truncates_rounded_product :
  py_int (fmul 25 (round64 (2286 # 25))) = 2286%Z /\
  py_int (25 * round64 (2286 # 25)) = 2285%Z.
Proof. vm_compute. split; reflexivity. Qed.



End RaytraceFacts.

(** ** Placement *)

Module PlacementFacts.
Import Num Geometry Py Host Run Resolver Raytrace Placement PlacementSpec.
Import Num GeometryFacts ResolverFacts RaytraceFacts.

Lemma add_object_parent_spec (h : host) (o : obj_dict) (out : string) (w : world) :
  exists res w' parented,
    add_object_parent h o out w = (Ret (Some res), w') /\
    calls w' = calls w ++ parented /\ parenting out parented.
Proof.
  unfold add_object_parent.
  destruct (truthy_str (od_parent_dcc_name o)).
  - unfold bind at 1.
    destruct (get_node_total h (od_parent_dcc_name o) w) as (r & w1 & -> & Hc & _).
    destruct r as [p |]; [destruct (truthy_str p) |]; cbn.
    + do 3 eexists. split; [reflexivity |]. cbn. rewrite Hc.
      split; [reflexivity |]. right. eexists. reflexivity.
    + exists out, w1, []. rewrite Hc, app_nil_r. repeat split. by left.
    + exists out, w1, []. rewrite Hc, app_nil_r. repeat split. by left.
  - exists out, w, []. rewrite app_nil_r. repeat split. by left.
Qed.

Lemma reference_asset_spec (h : host) (asset_path : string) (w : world) :
  truthy_str asset_path = true ->
  exists w',
    reference_asset h asset_path w = (Ret (reference_asset_nodes h asset_path), w') /\
    calls w' = calls w ++ [ReferenceAsset asset_path] /\
    units_multiplier w' = units_multiplier w.
Proof.
  intros Hp. unfold reference_asset. rewrite Hp. cbn [negb].
  destruct (isfile h asset_path); cbn [negb].
  - cbn. eexists. by repeat split.
  - unfold bind at 1, bind at 1.
    destruct (get_node_total h asset_path w) as (r & w1 & -> & Hc & Hu).
    cbn. eexists. split; [reflexivity |]. cbn. by rewrite Hc, Hu.
Qed.

Lemma add_object_node_spec (h : host) (o : obj_dict) (w : world) :
  exists out w' created,
    add_object_node h o w = (Ret out, w') /\
    calls w' = calls w ++ created /\ created <> [] /\ Forall is_creation created /\
    units_multiplier w' = units_multiplier w.
Proof.
  unfold add_object_node, bind at 1.
  destruct (od_group o); [| destruct (truthy_str (od_asset_path o)) eqn:Hp]; cbn.
  - destruct (truthy_str (group_name h (od_name o))); cbn.
    + do 3 eexists. split; [reflexivity |]. cbn.
      split; [reflexivity |]. split; [done |]. split; [by repeat constructor | reflexivity].
    + exists (polyCube_name h (od_name o)), (emit (PolyCube (od_name o)) (emit (Group (od_name o)) w)),
        [Group (od_name o); PolyCube (od_name o)].
      split; [reflexivity |]. cbn. rewrite <- app_assoc.
      split; [reflexivity |]. split; [done |]. split; [by repeat constructor | reflexivity].
  - unfold bind at 1.
    destruct (reference_asset_spec h (od_asset_path o) w Hp) as (w1 & -> & Hc & Hu).
    cbn. destruct (head (reference_asset_nodes h (od_asset_path o))) as [n |];
      [destruct (truthy_str n) |]; cbn.
    + exists n, w1, [ReferenceAsset (od_asset_path o)].
      split; [reflexivity |]. split; [exact Hc |]. split; [done |].
      split; [by repeat constructor | exact Hu].
    + eexists _, _, [ReferenceAsset (od_asset_path o); PolyCube (od_name o)].
      split; [reflexivity |]. cbn. rewrite Hc, <- app_assoc.
      split; [reflexivity |]. split; [done |]. split; [by repeat constructor | exact Hu].
    + eexists _, _, [ReferenceAsset (od_asset_path o); PolyCube (od_name o)].
      split; [reflexivity |]. cbn. rewrite Hc, <- app_assoc.
      split; [reflexivity |]. split; [done |]. split; [by repeat constructor | exact Hu].
  - do 3 eexists. split; [reflexivity |]. cbn.
    split; [reflexivity |]. split; [done |]. split; [by repeat constructor | reflexivity].
Qed.

(** What [add_object] does once the raytrace block has settled the
    location and rotation, when the yaw is not re-applied... *)
Lemma add_object_create_plain (h : host) (o : obj_dict) (location rotation : vec) (w : world) :
  exists res w',
    add_object_create h o location rotation false w = (Ret (Some res), w') /\
    placed_by (calls w) (calls w')
      (fun out => [Xform out location rotation (od_scale o)]).
Proof.
  unfold add_object_create, bind at 1.
  destruct (add_object_node_spec h o w) as (out & w1 & created & -> & Hc1 & Hne & Hall & _).
  unfold bind at 1, do_call, modify. cbn [fst snd].
  unfold bind at 1, ret at 1.
  destruct (add_object_parent_spec h o out (emit (Xform out location rotation (od_scale o)) w1))
    as (res & w' & parented & -> & Hc & Hp).
  exists res, w'. split; [reflexivity |].
  exists out, created, parented. rewrite Hc. cbn. rewrite Hc1.
  rewrite <- !app_assoc. by repeat split.
Qed.

(** ... and when it is. *)
Lemma add_object_create_yaw (h : host) (o : obj_dict) (location rotation : vec)
    (yaw : Q) (w : world) :
  od_rotation o !! 1%nat = Some yaw ->
  exists res w',
    add_object_create h o location rotation true w = (Ret (Some res), w') /\
    placed_by (calls w) (calls w')
      (fun out => [Xform out location rotation (od_scale o); RotateY yaw out]).
Proof.
  intros Hyaw.
  unfold add_object_create, bind at 1.
  destruct (add_object_node_spec h o w) as (out & w1 & created & -> & Hc1 & Hne & Hall & _).
  unfold bind at 1, do_call, modify. cbn [fst snd].
  unfold bind at 1, bind at 1, index. rewrite Hyaw. unfold ret at 1, modify.
  destruct (add_object_parent_spec h o out
              (emit (RotateY yaw out) (emit (Xform out location rotation (od_scale o)) w1)))
    as (res & w' & parented & -> & Hc & Hp).
  exists res, w'. split; [reflexivity |].
  exists out, created, parented. rewrite Hc. cbn. rewrite Hc1.
  rewrite <- !app_assoc. by repeat split.
Qed.

Lemma truthy_num_some (d : Q) : ~ d == 0 -> truthy_num (Some d) = true.
Proof.
  intros Hd. cbn. destruct (Qeq_bool d 0) eqn:E; [| reflexivity].
  apply Qeq_bool_iff in E. contradiction.
Qed.

(** The raytrace block of [add_object] on a hit, with both thresholds
    supplied and one of them non-zero. *)
Lemma add_object_raytrace_hit (h : host) (o : obj_dict) (w : world)
    (x y z d a m : Q) (hit_object : string) (hit_position hit_normal : vec) :
  ~ units_multiplier w == 0 ->
  od_raytrace_distance o = Some d -> ~ d == 0 ->
  od_raytrace_alignment o = Some a ->
  od_raytrace_alignment_mask o = Some m ->
  ~ a == 0 \/ ~ m == 0 ->
  let rd := fdiv d (units_multiplier w) in
  raytrace h [x; fadd y (fmul rd (1 # 2)); z] down rd [None] w
    = (Ret (Some (hit_object, hit_position, hit_normal)), w) ->
  hit_object <> EmptyString ->
  add_object_raytrace h o [x; y; z] w =
    (Ret (if Qltb (dot Binary64 up hit_normal) m then None
          else if Qltb a (dot Binary64 up hit_normal)
               then Some (hit_position, angleBetween h [0; 1; 0] hit_normal, true)
               else Some (hit_position, od_rotation o, false)), w).
Proof.
  intros Hum Hd Hd0 Ha Hm Hnz rd Hray Hobj.
  unfold add_object_raytrace. unfold bind at 1, get.
  rewrite Hd, (truthy_num_some d Hd0). cbn [default from_option id].
  unfold bind at 1. rewrite (py_div_ok _ _ _ Hum).
  unfold index. cbn [lookup list_lookup]. unfold bind at 1, bind at 1, bind at 1, ret at 1 2 3.
  unfold bind at 1. fold rd. rewrite Hray.
  destruct hit_object as [| c rest]; [done |]. cbn [truthy_str].
  rewrite Ha, Hm.
  assert (Hgate : truthy_num (Some a) || truthy_num (Some m) = true).
  { destruct Hnz as [H | H]; rewrite (truthy_num_some _ H); [reflexivity |].
    apply orb_true_r. }
  rewrite Hgate. unfold py_lt, py_gt, bind, ret.
  destruct (Qltb (dot Binary64 up hit_normal) m); [reflexivity |].
  destruct (Qltb a (dot Binary64 up hit_normal)); reflexivity.
Qed.

(** The raytrace block of [add_object] when the ray hits nothing. *)
Lemma add_object_raytrace_miss (h : host) (o : obj_dict) (w : world) (x y z d : Q) :
  ~ units_multiplier w == 0 ->
  od_raytrace_distance o = Some d ->
  let rd := fdiv d (units_multiplier w) in
  raytrace h [x; fadd y (fmul rd (1 # 2)); z] down rd [None] w = (Ret None, w) ->
  add_object_raytrace h o [x; y; z] w = (Ret (Some ([x; y; z], od_rotation o, false)), w).
Proof.
  intros Hum Hd rd Hray.
  unfold add_object_raytrace. unfold bind at 1, get.
  rewrite Hd. destruct (truthy_num (Some d)); [| reflexivity]. cbn [default from_option id].
  unfold bind at 1. rewrite (py_div_ok _ _ _ Hum).
  unfold index. cbn [lookup list_lookup]. unfold bind at 1, bind at 1, bind at 1, ret at 1 2 3.
  unfold bind at 1. fold rd. rewrite Hray. reflexivity.
Qed.

(** The raytrace block of [add_object] on a hit when neither threshold is
    non-zero: the thresholds are not looked at, whatever the normal. *)
Lemma add_object_raytrace_ungated (h : host) (o : obj_dict) (w : world)
    (x y z d : Q) (hit_object : string) (hit_position hit_normal : vec) :
  ~ units_multiplier w == 0 ->
  od_raytrace_distance o = Some d -> ~ d == 0 ->
  truthy_num (od_raytrace_alignment o) = false ->
  truthy_num (od_raytrace_alignment_mask o) = false ->
  let rd := fdiv d (units_multiplier w) in
  raytrace h [x; fadd y (fmul rd (1 # 2)); z] down rd [None] w
    = (Ret (Some (hit_object, hit_position, hit_normal)), w) ->
  hit_object <> EmptyString ->
  add_object_raytrace h o [x; y; z] w = (Ret (Some (hit_position, od_rotation o, false)), w).
Proof.
  intros Hum Hd Hd0 Ha Hm rd Hray Hobj.
  unfold add_object_raytrace. unfold bind at 1, get.
  rewrite Hd, (truthy_num_some d Hd0). cbn [default from_option id].
  unfold bind at 1. rewrite (py_div_ok _ _ _ Hum).
  unfold index. cbn [lookup list_lookup]. unfold bind at 1, bind at 1, bind at 1, ret at 1 2 3.
  unfold bind at 1. fold rd. rewrite Hray, Ha, Hm. cbn [orb].
  by destruct hit_object.
Qed.

(** The policy of [add_object] where it is applied. When the downward
    raytrace hits a surface with normal [n] and an align threshold [a] and
    a reject threshold [m] are both supplied, one of them non-zero: the
    reject test comes first, and below [m] nothing is created and [None]
    is returned; otherwise, above [a], the object is placed at the hit
    position with the rotation [angleBetween(up, n)] and its input yaw is
    then applied as a local Y rotation; otherwise it is placed at the hit
    position with its input rotation. *)
Lemma add_object_alignment_policy (h : host) (o : obj_dict) (w : world)
    (x y z yaw d a m : Q) (hit_object : string) (hit_position hit_normal : vec) :
  ~ units_multiplier w == 0 ->
  od_location o = [x; y; z] ->
  od_rotation o !! 1%nat = Some yaw ->
  od_raytrace_distance o = Some d -> ~ d == 0 ->
  od_raytrace_alignment o = Some a ->
  od_raytrace_alignment_mask o = Some m ->
  ~ a == 0 \/ ~ m == 0 ->
  let um := units_multiplier w in
  let rd := fdiv d um in
  raytrace h [fdiv x um; fadd (fdiv y um) (fmul rd (1 # 2)); fdiv z um] down rd [None] w
    = (Ret (Some (hit_object, hit_position, hit_normal)), w) ->
  hit_object <> EmptyString ->
  let up_dot_product := dot Binary64 [0; 1; 0] hit_normal in
  exists res w',
    add_object h o w = (Ret res, w') /\
    (up_dot_product < m -> res = None /\ w' = w) /\
    (m <= up_dot_product -> a < up_dot_product ->
       is_Some res /\
       placed_by (calls w) (calls w')
         (fun out => [Xform out hit_position (angleBetween h [0; 1; 0] hit_normal) (od_scale o);
                      RotateY yaw out])) /\
    (m <= up_dot_product -> up_dot_product <= a ->
       is_Some res /\
       placed_by (calls w) (calls w')
         (fun out => [Xform out hit_position (od_rotation o) (od_scale o)])).
Proof.
  intros Hum Hloc Hyaw Hd Hd0 Ha Hm Hnz um rd Hray Hobj up_dot_product. subst um rd.
  unfold add_object. unfold bind at 1, get. rewrite Hloc.
  unfold bind at 1. rewrite (div_all_ok _ _ _ Hum). cbn [map]. unfold bind at 1.
  rewrite (add_object_raytrace_hit h o w _ _ _ d a m hit_object hit_position hit_normal
             Hum Hd Hd0 Ha Hm Hnz Hray Hobj).
  change (dot Binary64 up hit_normal) with up_dot_product.
  destruct (Qltb up_dot_product m) eqn:Hrej.
  - apply Qltb_true in Hrej. exists None, w. split; [reflexivity |].
    split; [done |]. split; intros; lra.
  - apply Qltb_false in Hrej.
    destruct (Qltb a up_dot_product) eqn:Hal.
    + apply Qltb_true in Hal.
      destruct (add_object_create_yaw h o hit_position (angleBetween h [0; 1; 0] hit_normal)
                  yaw w Hyaw) as (res & w' & Hrun & Hplaced).
      exists (Some res), w'. split; [exact Hrun |].
      split; [intros; lra |]. split; [| intros; lra].
      intros _ _. split; [by eexists | exact Hplaced].
    + apply Qltb_false in Hal.
      destruct (add_object_create_plain h o hit_position (od_rotation o) w)
        as (res & w' & Hrun & Hplaced).
      exists (Some res), w'. split; [exact Hrun |].
      split; [intros; lra |]. split; [intros; lra |].
      intros _ _. split; [by eexists | exact Hplaced].
Qed.

(** The thresholds of [add_object] are looked at only when one of them is
    non-zero: a request whose thresholds are zero or missing is placed at
    the hit position with its input rotation whatever the normal of the
    surface, below the reject threshold and above the align threshold
    included. *)
Lemma add_object_ignores_zero_thresholds (h : host) (o : obj_dict) (w : world)
    (x y z d : Q) (hit_object : string) (hit_position hit_normal : vec) :
  ~ units_multiplier w == 0 ->
  od_location o = [x; y; z] ->
  od_raytrace_distance o = Some d -> ~ d == 0 ->
  truthy_num (od_raytrace_alignment o) = false ->
  truthy_num (od_raytrace_alignment_mask o) = false ->
  let um := units_multiplier w in
  let rd := fdiv d um in
  raytrace h [fdiv x um; fadd (fdiv y um) (fmul rd (1 # 2)); fdiv z um] down rd [None] w
    = (Ret (Some (hit_object, hit_position, hit_normal)), w) ->
  hit_object <> EmptyString ->
  exists res w',
    add_object h o w = (Ret (Some res), w') /\
    placed_by (calls w) (calls w')
      (fun out => [Xform out hit_position (od_rotation o) (od_scale o)]).
Proof.
  intros Hum Hloc Hd Hd0 Ha Hm um rd Hray Hobj. subst um rd.
  unfold add_object. unfold bind at 1, get. rewrite Hloc.
  unfold bind at 1. rewrite (div_all_ok _ _ _ Hum). cbn [map]. unfold bind at 1.
  rewrite (add_object_raytrace_ungated h o w _ _ _ d hit_object hit_position hit_normal
             Hum Hd Hd0 Ha Hm Hray Hobj).
  apply add_object_create_plain.
Qed.

(** C3, at a failing input.  A reject threshold of zero is supplied and
    the ray hits a surface that faces down, its normal well below the
    threshold: [add_object] does not abandon the placement, the object is
    created and placed on the surface. *)
Lemma add_object_zero_reject_threshold_still_places :
  let h := Sample.scene true [0; -(1); 0] in
  let o := Sample.crate None (Some 0) in
  od_raytrace_alignment_mask o = Some 0 /\
  raytrace h [fdiv 0 1; fadd (fdiv 10 1) (fmul (fdiv 100 1) (1 # 2)); fdiv 0 1] down
      (fdiv 100 1) [None] Sample.world0
    = (Ret (Some ("|floor", [0; 0; 0], [0; -(1); 0])), Sample.world0) /\
  dot Binary64 [0; 1; 0] [0; -(1); 0] < 0 /\
  fst (add_object h o Sample.world0) = Ret (Some "|crate") /\
  calls (snd (add_object h o Sample.world0))
    = [PolyCube "crate"; Xform "|crate" [0; 0; 0] [0; 45; 0] [1; 1; 1]].
Proof. vm_compute. repeat split; reflexivity. Qed.

(** The same for an align threshold of zero: the surface is tilted, its
    normal is well above the threshold, and the object keeps its input
    rotation. *)
Lemma add_object_zero_align_threshold_keeps_rotation :
  let h := Sample.scene true [3 # 5; 4 # 5; 0] in
  let o := Sample.crate (Some 0) None in
  0 < dot Binary64 [0; 1; 0] [3 # 5; 4 # 5; 0] /\
  angleBetween h [0; 1; 0] [3 # 5; 4 # 5; 0] = [0; 0; -(54)] /\
  add_object h o Sample.world0
    = (Ret (Some "|crate"),
       emit (Xform "|crate" [0; 0; 0] [0; 45; 0] [1; 1; 1])
         (emit (PolyCube "crate") Sample.world0)).
Proof. vm_compute. repeat split; reflexivity. Qed.

(** Zero is a threshold like any other once the other one is non-zero:
    with an align threshold of zero and a reject threshold of one half, a
    tilted surface above both makes the object align. *)
Lemma add_object_zero_align_threshold_used_beside_mask :
  let h := Sample.scene true [3 # 5; 4 # 5; 0] in
  let o := Sample.crate (Some 0) (Some (1 # 2)) in
  add_object h o Sample.world0
    = (Ret (Some "|crate"),
       emit (RotateY 45 "|crate")
         (emit (Xform "|crate" [0; 0; 0] [0; 0; -(54)] [1; 1; 1])
            (emit (PolyCube "crate") Sample.world0))).
Proof. vm_compute. reflexivity. Qed.

(** [translate_and_raytrace_by_name] on one node: above the threshold the
    node is rotated to the surface normal, then moved to the hit position. *)
Lemma translate_and_raytrace_aligns (h : host) (name : option string)
    (location : vec) (d dev : Q) (ignore_dcc_names : list (option string)) (w : world)
    (hit_object : string) (px py pz : Q) (n : vec) :
  ~ d == 0 ->
  raytrace h location down d ignore_dcc_names w
    = (Ret (Some (hit_object, [px; py; pz], n)), w) ->
  hit_object <> EmptyString ->
  dev < dot Binary64 [0; 1; 0] n ->
  translate_and_raytrace_by_name h [name] location d dev ignore_dcc_names w
    = (Ret tt, emit (MoveTo px py pz name)
                 (emit (XformRotation name (angleBetween h [0; 1; 0] n)) w)).
Proof.
  intros Hd Hray Hobj Hdev.
  unfold translate_and_raytrace_by_name.
  rewrite (truthy_num_some d Hd). unfold bind at 1, bind at 1. rewrite Hray.
  destruct hit_object as [| c rest]; [done |]. cbn [truthy_str].
  apply Qltb_true in Hdev. change (dot Binary64 up n) with (dot Binary64 [0; 1; 0] n).
  rewrite Hdev. reflexivity.
Qed.

(** With a raytrace distance and a ray that hits nothing, [add_object]
    creates the object at the input location, divided by the unit
    multiplier, with the input rotation. *)
Lemma add_object_miss_uses_input (h : host) (o : obj_dict) (w : world) (x y z d : Q) :
  ~ units_multiplier w == 0 ->
  od_location o = [x; y; z] ->
  od_raytrace_distance o = Some d ->
  let um := units_multiplier w in
  let rd := fdiv d um in
  raytrace h [fdiv x um; fadd (fdiv y um) (fmul rd (1 # 2)); fdiv z um] down rd [None] w
    = (Ret None, w) ->
  exists res w',
    add_object h o w = (Ret (Some res), w') /\
    placed_by (calls w) (calls w')
      (fun out => [Xform out [fdiv x um; fdiv y um; fdiv z um] (od_rotation o) (od_scale o)]).
Proof.
  intros Hum Hloc Hd um rd Hray. subst um rd.
  unfold add_object. unfold bind at 1, get. rewrite Hloc.
  unfold bind at 1. rewrite (div_all_ok _ _ _ Hum). cbn [map]. unfold bind at 1.
  rewrite (add_object_raytrace_miss h o w _ _ _ d Hum Hd Hray).
  apply add_object_create_plain.
Qed.

(** The raytrace block of [add_object] returns, and asks for the early
    [return None] only after a hit whose normal is below a supplied reject
    threshold. *)
Lemma add_object_raytrace_rejects_only_below_mask
    (h : host) (o : obj_dict) (w : world) (x y z : Q) :
  ~ units_multiplier w == 0 ->
  comparable h o ->
  exists r,
    add_object_raytrace h o [x; y; z] w = (Ret r, w) /\
    (r = None ->
     exists d m hit_object hit_position hit_normal,
       od_raytrace_distance o = Some d /\
       od_raytrace_alignment_mask o = Some m /\
       raytrace h [x; fadd y (fmul (fdiv d (units_multiplier w)) (1 # 2)); z] down
         (fdiv d (units_multiplier w)) [None] w
         = (Ret (Some (hit_object, hit_position, hit_normal)), w) /\
       dot Binary64 [0; 1; 0] hit_normal < m).
Proof.
  intros Hum Hcmp. unfold add_object_raytrace. unfold bind at 1, get.
  destruct (truthy_num (od_raytrace_distance o)) eqn:Hd;
    [| eexists; split; [reflexivity | discriminate]].
  destruct (od_raytrace_distance o) as [d |] eqn:Hdist; [| discriminate].
  cbn [default from_option id]. unfold bind at 1. rewrite (py_div_ok _ _ _ Hum).
  unfold index. cbn [lookup list_lookup]. unfold bind at 1, bind at 1, bind at 1, ret at 1 2 3.
  unfold bind at 1.
  destruct (raytrace_total h [x; fadd y (fmul (fdiv d (units_multiplier w)) (1 # 2)); z] down
              (fdiv d (units_multiplier w)) [None] w Hum) as (hit & Hray).
  rewrite Hray.
  destruct hit as [[[hit_object hit_position] hit_normal] |];
    [| eexists; split; [reflexivity | discriminate]].
  destruct (truthy_str hit_object);
    [| eexists; split; [reflexivity | discriminate]].
  destruct (truthy_num (od_raytrace_alignment o) || truthy_num (od_raytrace_alignment_mask o))
    eqn:Hgate;
    [| eexists; split; [reflexivity | discriminate]].
  assert (Hok : python3 h = false \/
                (is_Some (od_raytrace_alignment o) /\ is_Some (od_raytrace_alignment_mask o))).
  { destruct Hcmp as [H | [H | H]]; [by left | by right | congruence]. }
  unfold py_lt, py_gt, bind, ret.
  destruct (od_raytrace_alignment_mask o) as [m |] eqn:Hm.
  - destruct (Qltb (dot Binary64 up hit_normal) m) eqn:Hrej.
    + eexists. split; [reflexivity |]. intros _.
      exists d, m, hit_object, hit_position, hit_normal.
      apply Qltb_true in Hrej. by repeat split.
    + destruct (od_raytrace_alignment o) as [a |] eqn:Ha.
      * destruct (Qltb a (dot Binary64 up hit_normal));
          eexists; (split; [reflexivity | discriminate]).
      * destruct Hok as [-> | [[a Ha'] _]]; [| discriminate].
        eexists. split; [reflexivity | discriminate].
  - destruct Hok as [-> | [_ [m Hm']]]; [| discriminate].
    destruct (od_raytrace_alignment o) as [a |] eqn:Ha.
    + destruct (Qltb a (dot Binary64 up hit_normal));
        eexists; (split; [reflexivity | discriminate]).
    + eexists. split; [reflexivity | discriminate].
Qed.

(** When the thresholds can be compared, a raytrace keeps [add_object]
    from creating the object only through the reject threshold: the call
    returns, and it returns [None] only after a hit whose normal is below a
    supplied reject threshold. *)
Lemma add_object_abandons_only_on_reject (h : host) (o : obj_dict) (w : world)
    (x y z yaw : Q) :
  ~ units_multiplier w == 0 ->
  comparable h o ->
  od_location o = [x; y; z] ->
  od_rotation o !! 1%nat = Some yaw ->
  let um := units_multiplier w in
  exists res w',
    add_object h o w = (Ret res, w') /\
    (res = None ->
     exists d m hit_object hit_position hit_normal,
       od_raytrace_distance o = Some d /\
       od_raytrace_alignment_mask o = Some m /\
       raytrace h [fdiv x um; fadd (fdiv y um) (fmul (fdiv d um) (1 # 2)); fdiv z um] down
         (fdiv d um) [None] w
         = (Ret (Some (hit_object, hit_position, hit_normal)), w) /\
       dot Binary64 [0; 1; 0] hit_normal < m).
Proof.
  intros Hum Hcmp Hloc Hyaw um. subst um.
  unfold add_object. unfold bind at 1, get. rewrite Hloc.
  unfold bind at 1. rewrite (div_all_ok _ _ _ Hum). cbn [map]. unfold bind at 1.
  destruct (add_object_raytrace_rejects_only_below_mask h o w
              (fdiv x (units_multiplier w)) (fdiv y (units_multiplier w))
              (fdiv z (units_multiplier w)) Hum Hcmp)
    as (r & -> & Hnone).
  destruct r as [[[loc rot] [|]] |].
  - destruct (add_object_create_yaw h o loc rot yaw w Hyaw) as (res & w' & -> & _).
    exists (Some res), w'. split; [reflexivity | discriminate].
  - destruct (add_object_create_plain h o loc rot w) as (res & w' & -> & _).
    exists (Some res), w'. split; [reflexivity | discriminate].
  - exists None, w. split; [reflexivity |]. intros _. by apply Hnone.
Qed.

(** C4, at the failing input.  Under Python 3, a request with an align
    threshold and no reject threshold makes [add_object] raise as soon as
    the ray hits: the comparison of the dot product with the missing
    reject threshold is a [TypeError], and nothing is created. *)
Lemma add_object_python3_align_only_raises :
  let h := Sample.scene true [0; 1; 0] in
  let o := Sample.crate (Some (4 # 5)) None in
  python3 h = true /\
  od_raytrace_alignment_mask o = None /\
  raytrace h [fdiv 0 1; fadd (fdiv 10 1) (fmul (fdiv 100 1) (1 # 2)); fdiv 0 1] down
      (fdiv 100 1) [None] Sample.world0
    = (Ret (Some ("|floor", [0; 0; 0], [0; 1; 0])), Sample.world0) /\
  add_object h o Sample.world0 = (Raise TypeError, Sample.world0).
Proof. vm_compute. repeat split; reflexivity. Qed.

(** Under Python 2 the same request places the object, aligned. *)
Lemma add_object_python2_align_only_places :
  add_object (Sample.scene false [0; 1; 0]) (Sample.crate (Some (4 # 5)) None) Sample.world0
    = (Ret (Some "|crate"),
       emit (RotateY 45 "|crate")
         (emit (Xform "|crate" [0; 0; 0] [0; 0; 0] [1; 1; 1])
            (emit (PolyCube "crate") Sample.world0))).
Proof. vm_compute. reflexivity. Qed.

End PlacementFacts.

(** ** Undo chunks around a dispatched command *)

Module DispatchFacts.
Import Num Geometry Py Host Run Resolver Raytrace Placement Mesh Dispatch TraceSpec Names.
Import ResolverFacts.

Lemma quiet_ret {A : Type} (a : A) : quiet (ret a).
Proof. intros w. exists []. by rewrite app_nil_r. Qed.

Lemma quiet_raise {A : Type} (e : exn) : quiet (@raise A e).
Proof. intros w. exists []. by rewrite app_nil_r. Qed.

Lemma quiet_get : quiet get.
Proof. intros w. exists []. by rewrite app_nil_r. Qed.

Lemma quiet_do_call (c : call) : ~ is_undo c -> quiet (do_call c).
Proof. intros Hc w. exists [c]. split; [reflexivity | by constructor]. Qed.

Lemma quiet_bind {A B : Type} (m : M A) (k : A -> M B) :
  quiet m -> (forall a, quiet (k a)) -> quiet (bind m k).
Proof.
  intros Hm Hk w. unfold bind.
  destruct (Hm w) as (e1 & H1 & F1). destruct (m w) as [[a | e] w1]; cbn in *.
  - destruct (Hk a w1) as (e2 & H2 & F2). exists (e1 ++ e2).
    rewrite H2, H1, <- app_assoc. split; [reflexivity | by apply Forall_app].
  - by exists e1.
Qed.

Lemma quiet_try_except {A : Type} (m : M A) (k : exn -> M A) :
  quiet m -> (forall e, quiet (k e)) -> quiet (try_except m k).
Proof.
  intros Hm Hk w. unfold try_except.
  destruct (Hm w) as (e1 & H1 & F1). destruct (m w) as [[a | e] w1]; cbn in *.
  - by exists e1.
  - destruct (Hk e w1) as (e2 & H2 & F2). exists (e1 ++ e2).
    rewrite H2, H1, <- app_assoc. split; [reflexivity | by apply Forall_app].
Qed.

Lemma quiet_item0 {A : Type} (l : list A) : quiet (item0 l).
Proof. destruct l; [apply quiet_raise | apply quiet_ret]. Qed.

Lemma quiet_index (l : vec) (i : nat) : quiet (index l i).
Proof. unfold index. destruct (l !! i); [apply quiet_ret | apply quiet_raise]. Qed.

Lemma quiet_py_div (x y : Q) : quiet (py_div x y).
Proof. unfold py_div. destruct (Qeq_bool y 0); [apply quiet_raise | apply quiet_ret]. Qed.

Lemma quiet_get_node (h : host) (p_name : string) :
  quiet (get_node_from_promethean_name h p_name).
Proof.
  intros w. destruct (get_node_total h p_name w) as (res & w' & -> & Hc & _).
  exists []. cbn. by rewrite Hc, app_nil_r.
Qed.

Ltac quiet_step :=
  match goal with
  | |- quiet (bind _ _) => apply quiet_bind; [| intros ?]
  | |- quiet (ret _) => apply quiet_ret
  | |- quiet (raise _) => apply quiet_raise
  | |- quiet get => apply quiet_get
  | |- quiet (item0 _) => apply quiet_item0
  | |- quiet (index _ _) => apply quiet_index
  | |- quiet (py_div _ _) => apply quiet_py_div
  | |- quiet (get_node_from_promethean_name _ _) => apply quiet_get_node
  | |- quiet (do_call _) => apply quiet_do_call; intros [? | ?]; discriminate
  | |- quiet (if ?b then _ else _) => destruct b
  | |- quiet (match ?x with _ => _ end) => destruct x
  end.

Lemma quiet_get_nodes (h : host) (names : list string) :
  quiet (get_nodes_from_promethean_names h names).
Proof. induction names as [| n names IH]; cbn; repeat quiet_step. exact IH. Qed.

Lemma quiet_valid_children_loop (h : host) (parent : string) (l : list string) :
  quiet (valid_children_loop h parent l).
Proof. induction l as [| c l IH]; cbn; repeat quiet_step; exact IH. Qed.

Lemma quiet_command_parent (h : host) (arg : string) : quiet (command_parent h arg).
Proof.
  unfold command_parent.
  apply quiet_bind; [apply quiet_get_nodes | intros nodes].
  destruct nodes as [| [parent |] children]; repeat quiet_step.
  apply quiet_valid_children_loop.
Qed.

Lemma quiet_transform_values (h : host) (b : bool) (um : Q) (xs : list string) :
  quiet (transform_values h b um xs).
Proof. induction xs as [| x xs IH]; cbn; repeat quiet_step. exact IH. Qed.

Lemma quiet_command_transform (h : host) (command : string) (command_list : list string) :
  quiet (command_transform h command command_list).
Proof.
  unfold command_transform.
  do 3 quiet_step. { apply quiet_transform_values. }
  do 2 quiet_step. { apply quiet_get_nodes. }
  destruct (contains "translate" command);
    [| destruct (contains "rotate" command);
       [| destruct (contains "scale" command)]];
    repeat quiet_step.
Qed.

Section Switch.
Variable other_commands : host -> list string -> string -> option (M branch).
Hypothesis other_quiet :
  forall h command_list command_str run,
    other_commands h command_list command_str = Some run -> quiet run.

Lemma quiet_command_branch (h : host) (command_str : string) :
  vertex_data_command (command_of command_str) = false ->
  quiet (command_branch other_commands h command_str).
Proof.
  unfold vertex_data_command, command_of, command_branch. intros Hv.
  apply orb_false_elim in Hv as [-> ->]. cbn [andb].
  repeat match goal with
         | |- quiet (if ?b then _ else _) => destruct b
         end;
    try (repeat quiet_step; fail).
  - repeat quiet_step. apply quiet_command_parent.
  - repeat quiet_step. apply quiet_get_nodes.
  - repeat quiet_step. apply quiet_command_transform.
  - destruct (other_commands _ _ _) as [run |] eqn:E; [by eapply other_quiet |].
    repeat quiet_step.
Qed.

Lemma quiet_command_loop (h : host) (lines : list string) :
  Forall (fun line => vertex_data_command (command_of line) = false) lines ->
  quiet (command_loop other_commands h lines).
Proof.
  induction 1 as [| l lines Hl _ IH]; cbn; [apply quiet_ret |].
  destruct (negb (truthy_str l)); [exact IH |].
  apply quiet_bind; [by apply quiet_command_branch | intros b].
  destruct b; [exact IH | apply quiet_ret | apply quiet_ret].
Qed.
End Switch.

Lemma undo_free_depth (l : list call) :
  Forall (fun c => ~ is_undo c) l -> forall d, chunk_depth d l = Some d.
Proof.
  induction 1 as [| c l Hc _ IH]; intros d; [reflexivity |].
  destruct c; cbn; try apply IH; exfalso; apply Hc; [by left | by right].
Qed.

(** The decorator passes the outcome of the function through, raised or
    returned, and brackets what the function did between the opening and
    the closing of one chunk. *)
Lemma one_undo_chunk_trace {A : Type} (func : M A) (w : world) :
  quiet func ->
  fst (one_undo_chunk func w) = fst (func (emit UndoOpenChunk w)) /\
  exists inner,
    calls (snd (one_undo_chunk func w))
      = calls w ++ UndoOpenChunk :: inner ++ [UndoCloseChunk] /\
    Forall (fun c => ~ is_undo c) inner.
Proof.
  intros Hq. unfold one_undo_chunk, bind, do_call, modify, try_finally, try_except.
  cbn [fst snd]. destruct (Hq (emit UndoOpenChunk w)) as (inner & Hc & Hf).
  destruct (func (emit UndoOpenChunk w)) as [[a | e] w1]; cbn in *;
    (split; [reflexivity |]); exists inner; rewrite Hc; cbn; rewrite <- !app_assoc; by split.
Qed.

(** Where the claim holds.  For a batch without vertex data commands, and
    when the typed commands that are not spelled out make no undo call of
    their own: whether a handler returns or raises, [command_switch]
    passes the outcome through and adds exactly one undo chunk to the
    trace, opened before the handlers run and closed after them.  The
    threaded server wraps the same call in [with Undo()]; its (failing)
    call leaves one chunk as well, the decorator's chunk nested in it. *)
Lemma command_switch_closes_undo_chunk
    (other_commands : host -> list string -> string -> option (M branch))
    (h : host) (batch : string) (w : world) :
  (forall h command_list command_str run,
      other_commands h command_list command_str = Some run -> quiet run) ->
  Forall (fun line => vertex_data_command (command_of line) = false)
    (split "010"%char batch) ->
  (fst (command_switch other_commands h batch w)
     = fst (command_loop other_commands h (split "010"%char batch) (emit UndoOpenChunk w)) /\
   exists chunk,
     calls (snd (command_switch other_commands h batch w)) = calls w ++ chunk /\
     one_chunk chunk) /\
  (forall connection data,
     fst (QueueServer.with_Undo (QueueServer.command_switch_call connection data) w)
       = Raise TypeError /\
     exists chunk,
       calls (snd (QueueServer.with_Undo (QueueServer.command_switch_call connection data) w))
         = calls w ++ chunk /\
       one_chunk chunk).
Proof.
  intros Hother Hlines. split.
  - unfold command_switch.
    destruct (one_undo_chunk_trace
                (command_loop other_commands h (split "010"%char batch)) w
                (quiet_command_loop other_commands Hother h _ Hlines))
      as (Hout & inner & Hc & Hf).
    split; [exact Hout |].
    exists (UndoOpenChunk :: inner ++ [UndoCloseChunk]). split; [exact Hc |].
    exists inner. split; [reflexivity | by apply undo_free_depth].
  - intros connection data. split; [reflexivity |].
    exists [UndoOpenChunk; UndoOpenChunk; UndoCloseChunk; UndoCloseChunk].
    split; [cbn; by rewrite <- !app_assoc |].
    exists [UndoOpenChunk; UndoCloseChunk]. split; reflexivity.
Qed.

(** [get_triangle_positions] opens a chunk of its own and closes it only
    on its way out: when the session refuses the node, the function raises
    with its chunk open. *)
Lemma get_triangle_positions_raises_with_chunk_open
    (h : host) (dcc_name : option string) (e : exn) (w : world) :
  polyEvaluate_bbox h dcc_name = Raise e ->
  get_triangle_positions h dcc_name w = (Raise e, emit UndoOpenChunk w).
Proof.
  intros Hb. unfold get_triangle_positions, bind, do_call, modify. cbn. by rewrite Hb.
Qed.

(** The vertex data command for one object leaves an undo chunk open when
    the session refuses the node: the command raises, the decorator closes
    its own chunk, and the chunk of [get_triangle_positions] stays open. *)
Lemma vertex_data_command_leaves_chunk_open
    (other_commands : host -> list string -> string -> option (M branch))
    (h : host) (p_name node : string) (e : exn) (w w1 : world) :
  split " "%char p_name = [p_name] ->
  without "010"%char p_name ->
  get_node_from_promethean_name h p_name (emit UndoOpenChunk w) = (Ret (Some node), w1) ->
  node <> EmptyString ->
  polyEvaluate_bbox h (Some node) = Raise e ->
  fst (command_switch other_commands h ("get_vertex_data_from_scene_object " +:+ p_name) w)
    = Raise e /\
  calls (snd (command_switch other_commands h
                ("get_vertex_data_from_scene_object " +:+ p_name) w))
    = calls w1 ++ [UndoOpenChunk; UndoCloseChunk] /\
  forall d, chunk_depth d [UndoOpenChunk; UndoOpenChunk; UndoCloseChunk] = Some (S d).
Proof.
  intros Hword Hline Hnode Hne Hraise.
  assert (Hlines : split "010"%char ("get_vertex_data_from_scene_object " +:+ p_name)
                   = ["get_vertex_data_from_scene_object " +:+ p_name]).
  { apply NamesFacts.split_without.
    change ("get_vertex_data_from_scene_object " +:+ p_name)
      with ("get_vertex_data_from_scene_object " +:+ p_name).
    apply NamesFacts.without_app; [| exact Hline]. cbn. repeat split; discriminate. }
  assert (Hwords : split " "%char ("get_vertex_data_from_scene_object " +:+ p_name)
                   = ["get_vertex_data_from_scene_object"; p_name]).
  { change ("get_vertex_data_from_scene_object " +:+ p_name)
      with ("get_vertex_data_from_scene_object" +:+ String " " p_name).
    rewrite NamesFacts.split_app, Hword. reflexivity. }
  assert (Hbranch :
    command_branch other_commands h ("get_vertex_data_from_scene_object " +:+ p_name)
    = bind (item0 [p_name]) (fun p_name0 =>
      bind (get_node_from_promethean_name h p_name0) (fun node0 =>
        match node0 with
        | Some n =>
            if truthy_str n then
              bind (get_triangle_positions h (Some n))
                (fun vert_list => ret (Msg (dumps_vertex_object h vert_list)))
            else ret DefaultValue
        | None => ret DefaultValue
        end))).
  { unfold command_branch. rewrite Hwords. reflexivity. }
  unfold command_switch, one_undo_chunk. rewrite Hlines.
  cbn [command_loop].
  change (negb (truthy_str ("get_vertex_data_from_scene_object " +:+ p_name))) with false.
  cbn iota. rewrite Hbranch.
  unfold bind, do_call, modify, try_finally, try_except, item0, ret. cbn [fst snd].
  rewrite Hnode.
  destruct node as [| c node]; [done |]. cbn [truthy_str].
  pose proof (get_triangle_positions_raises_with_chunk_open h _ e w1 Hraise) as Htri.
  unfold bind, do_call, modify in Htri |- *. rewrite Htri.
  cbn. split; [reflexivity |]. split; [by rewrite <- app_assoc | reflexivity].
Qed.

(** C5, at failing inputs.  The vertex data commands raise when the
    session has no bounding box to give for a node (here a group without
    polygons), and then the undo history is left with a chunk open: two
    chunks were opened and one was closed. *)
Lemma vertex_data_commands_leave_undo_chunk_open :
  let h := Sample.scene true [0; 1; 0] in
  Sample.command_switch h "get_vertex_data_from_scene_objects P" Sample.world0
    = (Raise ValueError,
       {| old_nodes_names_dict := ∅;
          units_multiplier := 1;
          calls := [UndoOpenChunk; UndoOpenChunk; UndoCloseChunk] |}) /\
  Sample.command_switch h "get_vertex_data_from_scene_object P" Sample.world0
    = (Raise ValueError,
       {| old_nodes_names_dict := ∅;
          units_multiplier := 1;
          calls := [UndoOpenChunk; UndoOpenChunk; UndoCloseChunk] |}) /\
  chunk_depth 0 [UndoOpenChunk; UndoOpenChunk; UndoCloseChunk] = Some 1%nat /\
  calls (snd (Sample.command_switch h "get_vertex_data_from_scene_object floor" Sample.world0))
    = [UndoOpenChunk; UndoOpenChunk; PolyTriangulate (Some "|floor"); SelectClear;
       UndoCloseChunk; Undo; UndoCloseChunk].
Proof. vm_compute. repeat split; reflexivity. Qed.

(** When the target was resolved to a handle that no UUID is spelled like
    (a DAG path, as the redirect table and the resolution by label give),
    the test [parent_uuid == parent] never holds: every child whose parent
    exists is kept, also a child that is already under the target. *)
Lemma valid_children_loop_keeps_children_of_target
    (h : host) (parent : string) (l : list string) (w : world) :
  (forall p, objExists h p = true -> exists u, head (ls_uuid h p) = Some u /\ u <> parent) ->
  valid_children_loop h parent l w = (Ret (List.filter (parent_still_exists h) l), w).
Proof.
  intros Huuid. induction l as [| child l IH]; [reflexivity |].
  cbn [valid_children_loop List.filter]. unfold bind at 1, parent_still_exists at 1.
  destruct (listRelatives_parent h child) as [| child_parent rest].
  - cbn. unfold bind at 1. rewrite IH. reflexivity.
  - destruct (objExists h child_parent) eqn:Hex; cbn [negb].
    + destruct (Huuid _ Hex) as (u & Hu & Hne).
      destruct (ls_uuid h child_parent) as [| u' us]; [discriminate |].
      injection Hu as ->. cbn. apply String.eqb_neq in Hne. rewrite Hne.
      cbn. unfold bind at 1. rewrite IH. reflexivity.
    + cbn. unfold bind at 1. rewrite IH. reflexivity.
Qed.

(** When the target was resolved to its UUID, a child that is under it is
    left out. *)
Lemma valid_children_loop_skips_child_of_target
    (h : host) (parent child child_parent : string) (rest us : list string)
    (l : list string) (w : world) :
  listRelatives_parent h child = child_parent :: rest ->
  objExists h child_parent = true ->
  ls_uuid h child_parent = parent :: us ->
  valid_children_loop h parent (child :: l) w = valid_children_loop h parent l w.
Proof.
  intros Hp Hex Hu. cbn [valid_children_loop]. unfold bind at 1.
  rewrite Hp, Hex. cbn [negb]. unfold bind at 1. rewrite Hu. cbn [item0].
  unfold ret at 1. rewrite String.eqb_refl. unfold ret at 1. unfold bind.
  destruct (valid_children_loop h parent l w) as [[more | e] w1]; reflexivity.
Qed.

(** C7, at the failing input: [|P|C] is already a child of [|P]; the
    command names the target by its label, which resolves to the path
    [|P], and still asks the session to parent the child under it.  With
    the target named by its UUID the child is left alone. *)
Lemma parent_command_reparents_child_of_target :
  let h := Sample.scene true [0; 1; 0] in
  listRelatives_parent h Sample.uuid_C = ["|P"] /\
  fst (get_nodes_from_promethean_names h ["P"; "C#" +:+ Sample.uuid_C] Sample.world0)
    = Ret [Some "|P"; Some Sample.uuid_C] /\
  Sample.command_switch h ("parent P,C#" +:+ Sample.uuid_C) Sample.world0
    = (Ret None,
       {| old_nodes_names_dict := ∅;
          units_multiplier := 1;
          calls := [UndoOpenChunk; Parent [Sample.uuid_C] "|P"; UndoCloseChunk] |}) /\
  Sample.command_switch h ("parent P#" +:+ Sample.uuid_P +:+ ",C#" +:+ Sample.uuid_C)
    Sample.world0
    = (Ret None,
       {| old_nodes_names_dict := ∅;
          units_multiplier := 1;
          calls := [UndoOpenChunk; UndoCloseChunk] |}).
Proof. vm_compute. repeat split; reflexivity. Qed.

End DispatchFacts.

(** ** Replies of the servers *)

Module ServerFacts.
Import Py Host Run Dispatch QtServer.

Section Loop.
Variable command_switch : string -> M (option string).

(** One round of the loop of [_process_data] for a non-empty line. *)
Lemma process_loop_cons (data : string) (rest : list string) (res : option string)
    (w : world) :
  data <> EmptyString ->
  process_loop command_switch (data :: rest) res w =
    match command_switch data (emit (Print (new_command_message data)) w) with
    | (Ret r, w1) => process_loop command_switch rest r w1
    | (Raise e, w1) =>
        process_loop command_switch rest (Some "None")
          (emit PrintExc
             (emit (Print "PrometheanAI: Maya command switch failed with this message:") w1))
    end.
Proof.
  intros Hd. destruct data as [| c data]; [done |]. cbn [process_loop truthy_str negb].
  unfold bind, do_call, modify, try_except. cbn [fst snd].
  destruct (command_switch (String c data) (emit (Print _) w)) as [[r | e] w1];
    reflexivity.
Qed.

Lemma process_loop_returns (l : list string) (res : option string) (w : world) :
  exists r w', process_loop command_switch l res w = (Ret r, w').
Proof.
  revert res w. induction l as [| data l IH]; intros res w; [by eexists _, _ |].
  destruct data as [| c data]; [apply IH |].
  rewrite process_loop_cons; [| done].
  destruct (command_switch _ _) as [[r | e] w1]; apply IH.
Qed.

Lemma process_loop_app (l1 l2 : list string) (res : option string) (w : world) :
  process_loop command_switch (l1 ++ l2) res w =
    match process_loop command_switch l1 res w with
    | (Ret r, w') => process_loop command_switch l2 r w'
    | (Raise e, w') => (Raise e, w')
    end.
Proof.
  revert res w. induction l1 as [| data l1 IH]; intros res w; [reflexivity |].
  destruct data as [| c data]; [apply IH |].
  cbn [app]. rewrite !process_loop_cons; try done.
  destruct (command_switch _ _) as [[r | e] w1]; apply IH.
Qed.

Lemma process_loop_blanks (blanks : list string) (res : option string) (w : world) :
  Forall (fun line => line = EmptyString) blanks ->
  process_loop command_switch blanks res w = (Ret res, w).
Proof. induction 1 as [| line blanks -> _ IH]; [reflexivity | exact IH]. Qed.

End Loop.



(** The threaded server never writes a reply: it closes the connection
    after the call, which always fails. *)
Lemma execute_item_writes_nothing (data : string) (connection : nat) (w : world) :
  QueueServer.execute_item QueueServer.command_switch_call (data, connection) w
    = (Ret tt,
       {| old_nodes_names_dict := old_nodes_names_dict w;
          units_multiplier := units_multiplier w;
          calls := calls w ++ [Print ("PrometheanAI: New network command stack item: " +:+ data);
                               UndoOpenChunk; UndoOpenChunk;
                               UndoCloseChunk; UndoCloseChunk;
                               Print "PrometheanAI: Maya command switch failed with this message:";
                               PrintExc; ConnectionClose connection] |}).
Proof.
  unfold QueueServer.execute_item. cbn. unfold do_call, modify, emit. cbn.
  by rewrite <- !app_assoc.
Qed.

End ServerFacts.

(** ** Unit conversion *)

Module UnitsFacts.
Import Num Geometry Py Host Run Resolver Raytrace RaytraceSpec Placement Dispatch Units Session.
Import RaytraceFacts.

(** The translate branch of the switch, for a well-formed line: the three
    values are divided by the factor and handed to [cmds.move]. *)
Lemma command_branch_translate
    (other_commands : host -> list string -> string -> option (M branch))
    (h : host) (line command arg1 arg2 s0 s1 s2 : string) (x0 x1 x2 : Q) (w : world) :
  ~ units_multiplier w == 0 ->
  command = "translate" \/ command = "translate_relative" ->
  split " " line = [command; arg1; arg2] ->
  split "," arg1 = [s0; s1; s2] ->
  py_float h s0 = Some x0 -> py_float h s1 = Some x1 -> py_float h s2 = Some x2 ->
  let um := units_multiplier w in
  command_branch other_commands h line w =
    match get_nodes_from_promethean_names h (split "," arg2) w with
    | (Ret nodes, w1) =>
        (Ret DefaultValue,
         emit (Move (fdiv x0 um) (fdiv x1 um) (fdiv x2 um) (truthy_nodes nodes)
                 (endswith "_relative" command)) w1)
    | (Raise e, w1) => (Raise e, w1)
    end.
Proof.
  intros Hum Hcmd Hwords Hvalues H0 H1 H2 um.
  assert (Hbranch : command_branch other_commands h line
                    = bind (command_transform h command [command; arg1; arg2])
                        (fun _ => ret DefaultValue)).
  { unfold command_branch. rewrite Hwords.
    destruct Hcmd as [-> | ->]; reflexivity. }
  rewrite Hbranch. unfold command_transform.
  assert (Hin : in_list command ["translate"; "translate_relative"] = true)
    by (destruct Hcmd as [-> | ->]; reflexivity).
  assert (Hfunc : contains "translate" command = true)
    by (destruct Hcmd as [-> | ->]; reflexivity).
  unfold bind, get. cbn [drop item0]. unfold ret at 1. cbn beta iota. rewrite Hvalues.
  cbn [transform_values]. rewrite H0, H1, H2.
  unfold bind. rewrite Hin, Hfunc, !(py_div_ok _ _ _ Hum). fold um.
  unfold ret. cbn beta iota.
  destruct (get_nodes_from_promethean_names h (split "," arg2) w) as [[nodes | e] w1];
    reflexivity.
Qed.

(** C8 (amended). Unit conversions at the boundary use the module-level
    [units_multiplier], as it stands when the command runs.  For a factor
    that is not zero: the values of a translate command reach [cmds.move]
    divided by it; [raytrace] asks the session for intersections from the
    start point times the factor, within the distance times the factor,
    and returns the hit position divided by it.  The session's current
    unit is read by [set_current_units_multiplier] only, which runs when a
    unit change is notified: the translate command that follows a notified
    change divides by the new factor, the one that follows a change that
    was not notified still divides by the old one. *)
Theorem conversions_use_module_multiplier
    (other_commands : host -> list string -> string -> option (M branch))
    (h : host) (line command arg1 arg2 s0 s1 s2 : string) (x0 x1 x2 : Q) (w : world) :
  ~ units_multiplier w == 0 ->
  command = "translate" \/ command = "translate_relative" ->
  split "010" line = [line] ->
  split " " line = [command; arg1; arg2] ->
  split "," arg1 = [s0; s1; s2] ->
  py_float h s0 = Some x0 -> py_float h s1 = Some x1 -> py_float h s2 = Some x2 ->
  let um := units_multiplier w in
  let moved h' factor w0 :=
    match get_nodes_from_promethean_names h' (split "," arg2) (emit UndoOpenChunk w0) with
    | (Ret nodes, w1) =>
        emit UndoCloseChunk
          (emit (Move (fdiv x0 factor) (fdiv x1 factor) (fdiv x2 factor) (truthy_nodes nodes)
                   (endswith "_relative" command)) w1)
    | (Raise e, w1) => emit UndoCloseChunk w1
    end in
  snd (command_switch other_commands h line w) = moved h um w /\
  (forall start_point direction distance ignore_dcc_names,
     let hit_of mesh :=
       closestIntersection h mesh (MFloatPoint_times h start_point um) direction
         (py_int (fmul distance um)) in
     exists res,
       raytrace h start_point direction distance ignore_dcc_names w = (Ret res, w) /\
       match res with
       | Some (hit_object, hit_position, _) =>
           exists mesh hit_point,
             mesh ∈ visible_meshes h ignore_dcc_names /\
             hit_of mesh = Some hit_point /\
             hit_object = fullPathName h mesh /\
             hit_position = map (fun c => fdiv c um) hit_point
       | None =>
           contains "modelPanel" (or_str (getPanel_underPointer h) (getPanel_wf h)) = false \/
           forall mesh, mesh ∈ visible_meshes h ignore_dcc_names -> hit_of mesh = None
       end) /\
  (forall u, ~ u == 0 ->
     run_session (command_switch other_commands) h [UnitChange u true; Command line] w
       = (with_unit u h, moved (with_unit u h) u (set_units u w)) /\
     run_session (command_switch other_commands) h [UnitChange u false; Command line] w
       = (with_unit u h, moved (with_unit u h) um w)).
Proof.
  intros Hum Hcmd Hlines Hwords Hvalues H0 H1 H2 um moved.
  assert (Hline : truthy_str line = true).
  { destruct line; [| reflexivity]. destruct Hcmd as [-> | ->]; discriminate Hwords. }
  assert (Hswitch : forall h' w0,
            ~ units_multiplier w0 == 0 ->
            py_float h' = py_float h ->
            snd (command_switch other_commands h' line w0)
              = moved h' (units_multiplier w0) w0).
  { intros h' w0 Hum0 Hfloat.
    unfold command_switch, one_undo_chunk. rewrite Hlines. cbn [command_loop].
    rewrite Hline. cbn [negb].
    unfold bind at 1, do_call at 1, modify at 1, try_finally, try_except, bind at 1.
    rewrite (command_branch_translate other_commands h' line command arg1 arg2 s0 s1 s2
               x0 x1 x2 (emit UndoOpenChunk w0) Hum0 Hcmd Hwords Hvalues);
      try (rewrite Hfloat; assumption).
    unfold moved. cbn [emit units_multiplier].
    destruct (get_nodes_from_promethean_names h' (split "," arg2) (emit UndoOpenChunk w0))
      as [[nodes | e] w1]; reflexivity. }
  split; [apply Hswitch; [exact Hum | reflexivity] |].
  split.
  - intros start_point direction distance ignore_dcc_names hit_of.
    unfold raytrace. unfold bind at 1, get.
    rewrite meshes_in_view_spec. fold um.
    destruct (truthy_list (visible_meshes h ignore_dcc_names)) eqn:Hc; cbn [negb].
    2:{ exists None. split; [reflexivity |]. right.
        destruct (visible_meshes h ignore_dcc_names); [| discriminate].
        intros m Hm. inversion Hm. }
    destruct (contains "modelPanel" _) eqn:Hp; cbn [negb].
    2:{ exists None. split; [reflexivity |]. by left. }
    set (source_point := MFloatPoint_times h start_point um).
    set (f := intersect h source_point direction (py_int (fmul distance um))).
    assert (Hf : forall m, f m = match hit_of m with
                                 | Some p => Some (fullPathName h m, p, getClosestNormal h m p)
                                 | None => None end) by reflexivity.
    destruct (fold_left (closer h source_point) (omap f _) None) as [[c dc] |] eqn:E.
    + apply scan_first_closest in E as [_ (r1 & r2 & Hsplit & _ & _)].
      apply omap_split in Hsplit as (l1 & m & l2 & Hcand & Hm & _ & _).
      rewrite Hf in Hm. destruct (hit_of m) as [p |] eqn:Hhit; [| discriminate].
      injection Hm as <-.
      unfold bind. rewrite (div_all_ok _ _ _ Hum).
      eexists. split; [reflexivity |]. cbn [fst snd].
      exists m, p. split; [| by repeat split].
      rewrite Hcand. apply elem_of_app. right. apply list_elem_of_here.
    + apply scan_none in E.
      exists None. split; [reflexivity |]. right.
      intros m Hm. pose proof (omap_nil_inv f _ E m Hm) as Hnone.
      rewrite Hf in Hnone. destruct (hit_of m); [discriminate | reflexivity].
  - intros u Hu. cbn [run_session]. unfold set_current_units_multiplier, modify. cbn [snd].
    split; f_equal.
    + change (convertUnit_to_cm (with_unit u h)) with u.
      apply (Hswitch (with_unit u h) (set_units u w)); [exact Hu | reflexivity].
    + apply (Hswitch (with_unit u h) w); [exact Hum | reflexivity].
Qed.

Lemma conversions_use_module_multiplier_witness :
  let h := Sample.scene true [0; 1; 0] in
  let line := "translate 100,0,0 P#" +:+ Sample.uuid_P in
  calls (snd (run_session Sample.command_switch h [UnitChange 100 true; Command line]
                Sample.world0))
    = [UndoOpenChunk; Move 1 0 0 [Sample.uuid_P] false; UndoCloseChunk] /\
  calls (snd (run_session Sample.command_switch h [UnitChange 100 false; Command line]
                Sample.world0))
    = [UndoOpenChunk; Move 100 0 0 [Sample.uuid_P] false; UndoCloseChunk].
Proof.
  intros h line.
  destruct (conversions_use_module_multiplier (fun _ _ _ => None) h line
              "translate" "100,0,0" ("P#" +:+ Sample.uuid_P) "100" "0" "0" 100 0 0
              Sample.world0)
    as (_ & _ & Hsession); try reflexivity; [discriminate | by left |].
  destruct (Hsession 100) as [Hnotified Hsilent]; [discriminate |].
  change Sample.command_switch
    with (command_switch (fun (_ : host) (_ : list string) (_ : string) => @None (M branch))).
  split; [rewrite Hnotified | rewrite Hsilent]; vm_compute; reflexivity.
Defined.

(** C8, counterexample. The claim as stated fails: the session changes its
    unit to metres without a notification, and the next [translate] still
    divides by the module's factor [1], not by the session's factor [100]. *)
Lemma unit_change_without_notification_is_not_seen :
  let h := Sample.scene true [0; 1; 0] in
  let line := "translate 100,0,0 P#" +:+ Sample.uuid_P in
  let after := run_session Sample.command_switch h [UnitChange 100 false; Command line]
                 Sample.world0 in
  convertUnit_to_cm (fst after) = 100 /\
  calls (snd after) = [UndoOpenChunk; Move 100 0 0 [Sample.uuid_P] false; UndoCloseChunk] /\
  ~ fdiv 100 (convertUnit_to_cm (fst after)) == 100.
Proof.
  vm_compute. split; [reflexivity |]. split; [reflexivity |]. discriminate.
Qed.

End UnitsFacts.

(** ** The command queue of the threaded server *)

Module QueueFacts.
Import Py Host Run QueueServer.

Section Worker.
Variable dispatch : nat -> string -> M (option string).
Variable ignore_vacate_socket : bool.

Local Abbreviation run := (QueueServer.run dispatch ignore_vacate_socket).
Local Abbreviation execute_items := (QueueServer.execute_items dispatch).

Lemma execute_items_app (l1 l2 : list item) (w : world) :
  execute_items (l1 ++ l2) w = execute_items l2 (execute_items l1 w).
Proof. unfold QueueServer.execute_items. by rewrite fold_left_app. Qed.

Lemma arrivals_snoc (schedule : list action) (a : action) :
  arrivals (schedule ++ [a]) = arrivals schedule ++ arrivals [a].
Proof. unfold arrivals. by rewrite omap_app. Qed.

Lemma run_app (l1 l2 : list action) (s : server) : run (l1 ++ l2) s = run l2 (run l1 s).
Proof. unfold QueueServer.run. by rewrite fold_left_app. Qed.

Lemma submitted_by_app (connection : nat) (l1 l2 : list item) :
  submitted_by connection (l1 ++ l2)
    = submitted_by connection l1 ++ submitted_by connection l2.
Proof. unfold submitted_by. apply List.filter_app. Qed.

(** One round of a worker that finds the flag set and the stack
    non-empty: four steps, the head of the stack is executed. *)
Lemma round_executes_head (i : nat) (it : item) (rest : list item) (s : server) :
  enable_command_stack s = true ->
  workers s !! i = Some LoopHead ->
  command_stack s = it :: rest ->
  run (repeat (Work i) 4) s
    = {| command_stack := rest;
         enable_command_stack := true;
         session := snd (execute_item dispatch it (session s));
         workers := workers s |}.
Proof.
  intros Hflag Hpc Hq. destruct s as [q flag w ws]. cbn in Hflag, Hpc, Hq. subst q flag.
  assert (Hi : (i < length ws)%nat) by (apply lookup_lt_is_Some; eauto).
  cbn [repeat QueueServer.run fold_left step]. unfold work, at_pc. cbn [workers].
  rewrite Hpc. cbn [enable_command_stack command_stack session workers truthy_list].
  rewrite list_lookup_insert_eq by done.
  cbn [enable_command_stack command_stack session workers truthy_list].
  rewrite list_lookup_insert_eq by (by rewrite length_insert).
  cbn [enable_command_stack command_stack session workers].
  rewrite list_lookup_insert_eq by (by rewrite !length_insert).
  cbn [enable_command_stack command_stack session workers].
  rewrite !list_insert_insert_eq. by rewrite (list_insert_id _ _ _ Hpc).
Qed.

(** One round of a worker that finds the flag set and the stack empty:
    two steps, nothing changes. *)
Lemma round_on_empty_stack (i : nat) (s : server) :
  enable_command_stack s = true ->
  workers s !! i = Some LoopHead ->
  command_stack s = [] ->
  run (repeat (Work i) 2) s = s.
Proof.
  intros Hflag Hpc Hq. destruct s as [q flag w ws]. cbn in Hflag, Hpc, Hq. subst q flag.
  assert (Hi : (i < length ws)%nat) by (apply lookup_lt_is_Some; eauto).
  cbn [repeat QueueServer.run fold_left step]. unfold work, at_pc. cbn [workers].
  rewrite Hpc. cbn [enable_command_stack command_stack session workers truthy_list].
  rewrite list_lookup_insert_eq by done.
  cbn [enable_command_stack command_stack session workers truthy_list].
  rewrite !list_insert_insert_eq. by rewrite (list_insert_id _ _ _ Hpc).
Qed.

(** [k] rounds of a worker, with nothing else happening in between. *)
Lemma rounds (i k : nat) (s : server) :
  enable_command_stack s = true ->
  workers s !! i = Some LoopHead ->
  run (repeat (Work i) (4 * k)) s
    = {| command_stack := drop k (command_stack s);
         enable_command_stack := true;
         session := execute_items (take k (command_stack s)) (session s);
         workers := workers s |}.
Proof.
  revert s. induction k as [| k IH]; intros s Hflag Hpc.
  - cbn. rewrite drop_0. destruct s; cbn in *; by subst.
  - replace (4 * S k)%nat with (4 + 4 * k)%nat by lia.
    rewrite repeat_app, run_app.
    destruct (command_stack s) as [| it rest] eqn:Hq.
    + change (repeat (Work i) 4) with (repeat (Work i) 2 ++ repeat (Work i) 2).
      rewrite run_app, !(round_on_empty_stack i s Hflag Hpc Hq).
      rewrite (IH s Hflag Hpc), Hq. by rewrite drop_nil, take_nil.
    + rewrite (round_executes_head i it rest s Hflag Hpc Hq).
      rewrite IH; [| reflexivity | exact Hpc]. reflexivity.
Qed.

(** A single worker that is in its loop, with the flag set, gets through
    the item it holds and the whole stack when it is left to run. *)
Lemma drain (p : pc) (s : server) :
  workers s = [p] ->
  enable_command_stack s = true ->
  p <> Exited -> p <> Crashed ->
  (p = AboutToPop -> command_stack s <> []) ->
  exists n,
    run (repeat (Work 0) n) s
      = {| command_stack := [];
           enable_command_stack := true;
           session := execute_items (in_flight s ++ command_stack s) (session s);
           workers := [LoopHead] |}.
Proof.
  intros Hws Hflag Hexit Hcrash Hpop.
  destruct s as [q flag w ws]. cbn in Hws, Hflag, Hpop. subst ws flag.
  assert (Hhead : forall q w,
            run (repeat (Work 0) (4 * length q))
                {| command_stack := q; enable_command_stack := true; session := w;
                   workers := [LoopHead] |}
              = {| command_stack := []; enable_command_stack := true;
                   session := execute_items q w; workers := [LoopHead] |}).
  { intros q' w'. rewrite rounds by reflexivity. cbn [command_stack session workers].
    by rewrite drop_all, firstn_all. }
  unfold in_flight. cbn [workers flat_map command_stack session].
  destruct p as [| | | it | |]; try done; cbn [app].
  - exists (4 * length q)%nat. apply Hhead.
  - destruct q as [| it rest].
    + exists 1%nat. reflexivity.
    + exists (3 + 4 * length rest)%nat. rewrite repeat_app, run_app.
      etransitivity; [| apply (Hhead rest (snd (execute_item dispatch it w)))]. reflexivity.
  - destruct q as [| it rest]; [by destruct Hpop |].
    exists (2 + 4 * length rest)%nat. rewrite repeat_app, run_app.
    etransitivity; [| apply (Hhead rest (snd (execute_item dispatch it w)))]. reflexivity.
  - exists (1 + 4 * length q)%nat. rewrite repeat_app, run_app.
    etransitivity; [| apply (Hhead q (snd (execute_item dispatch it w)))]. reflexivity.
Qed.

(** While [start_server] is not called again there is one worker; what it
    has gone through, followed by the item it holds and by what is still
    queued, is what arrived; and the session is the one left by going
    through those items one after the other. *)
Lemma run_invariant (schedule : list action) (w0 : world) :
  started_once schedule = true ->
  let s := run schedule (started w0) in
  exists p served,
    workers s = [p] /\
    arrivals schedule = served ++ in_flight s ++ command_stack s /\
    session s = execute_items served w0 /\
    p <> Crashed /\
    (p = AboutToPop -> command_stack s <> []) /\
    (p = Exited -> enable_command_stack s = false).
Proof.
  induction schedule as [| a schedule IH] using rev_ind; intros Honce s.
  - exists LoopHead, []. by repeat split.
  - unfold started_once in Honce. rewrite forallb_app in Honce.
    apply andb_prop in Honce as [Honce Ha].
    destruct (IH Honce) as (p & served & Hws & Harr & Hses & Hcrash & Hpop & Hexit).
    subst s. rewrite run_app, arrivals_snoc.
    set (s := run schedule (started w0)) in *.
    destruct s as [q flag w ws]. cbn in Hws, Harr, Hses, Hpop, Hexit. subst ws.
    unfold in_flight in *. cbn [workers flat_map] in *.
    destruct a as [connection data | i | |]; cbn [QueueServer.run fold_left step arrivals omap
                                                  list_omap].
    + destruct (truthy_str data) eqn:Hd; cbn [andb].
      * destruct (String.eqb data vacate_socket_command); cbn [negb].
        -- exists p, served. rewrite app_nil_r.
           destruct ignore_vacate_socket; cbn; by repeat split.
        -- exists p, served. cbn. rewrite Harr, <- !app_assoc.
           repeat split; try done. intros _. by destruct q.
      * exists p, served. rewrite app_nil_r. by repeat split.
    + rewrite app_nil_r. destruct i as [| i]; [| exists p, served; by repeat split].
      unfold work, at_pc. cbn [workers lookup list_lookup].
      destruct p as [| | | it | |]; cbn [enable_command_stack command_stack session workers
                                          insert list_insert];
        try (exists Exited, served; by repeat split); try done.
      * destruct flag.
        -- exists QueueTest, served. by repeat split.
        -- exists Exited, served. by repeat split.
      * destruct q as [| it rest]; cbn [truthy_list].
        -- exists LoopHead, served. by repeat split.
        -- exists AboutToPop, served. by repeat split.
      * destruct q as [| it rest]; [by destruct Hpop |].
        exists (Popped it), served. by repeat split.
      * exists LoopHead, (served ++ [it]). cbn [app] in *.
        rewrite execute_items_app, <- Hses, <- app_assoc. by repeat split.
    + rewrite app_nil_r. exists p, served. cbn. repeat split; try done.
    + discriminate Ha.
Qed.

End Worker.



(** The server with the call of the source, on two connections: the items
    are taken in arrival order, each call fails with [TypeError] inside its
    two undo chunks, and the connection is closed. *)
Lemma threaded_server_example :
  let s := run command_switch_call false
             ([Recv 1 "report_done"; Recv 2 "save_current_scene"] ++ repeat (Work 0) 4
                ++ [Recv 1 "select"] ++ repeat (Work 0) 4)
             (started Sample.world0) in
  command_stack s = [("select", 1%nat)] /\
  calls (session s)
    = [Print "PrometheanAI: New network command stack item: report_done";
       UndoOpenChunk; UndoOpenChunk; UndoCloseChunk; UndoCloseChunk;
       Print "PrometheanAI: Maya command switch failed with this message:"; PrintExc;
       ConnectionClose 1;
       Print "PrometheanAI: New network command stack item: save_current_scene";
       UndoOpenChunk; UndoOpenChunk; UndoCloseChunk; UndoCloseChunk;
       Print "PrometheanAI: Maya command switch failed with this message:"; PrintExc;
       ConnectionClose 2].
Proof. vm_compute. split; reflexivity. Qed.

End QueueFacts.

(** ** The redirect table under resolution *)

Module RedirectFacts.
Import Py Host Run Resolver ResolverFacts.

(** What [get_node_from_promethean_name] leaves of the redirect table: the
    table itself, or the table without the entry of the name. *)
Lemma get_node_table (h : host) (p_name : string) (w : world) :
  exists res w',
    get_node_from_promethean_name h p_name w = (Ret res, w') /\
    calls w' = calls w /\ units_multiplier w' = units_multiplier w /\
    ((old_nodes_names_dict w' = old_nodes_names_dict w /\
      forall r, old_nodes_names_dict w !! p_name = Some r ->
                r <> EmptyString -> truthy_list (ls h r) = true /\ res = Some r) \/
     (old_nodes_names_dict w' = delete p_name (old_nodes_names_dict w) /\
      exists r, old_nodes_names_dict w !! p_name = Some r /\ truthy_list (ls h r) = false)).
Proof.
  unfold get_node_from_promethean_name, bind, get.
  destruct (old_nodes_names_dict w !! p_name) as [r |] eqn:Hr.
  - destruct r as [| c r'].
    + cbn. rewrite fall_through_eq. do 2 eexists. split; [reflexivity |].
      do 2 (split; [reflexivity |]). left. split; [reflexivity |].
      intros r [= <-] Hne. done.
    + cbn [truthy_str]. destruct (truthy_list (ls h (String c r'))) eqn:Hls.
      * cbn. do 2 eexists. split; [reflexivity |].
        do 2 (split; [reflexivity |]). left. split; [reflexivity |].
        intros r [= <-] _. by split.
      * cbn. rewrite fall_through_eq. do 2 eexists. split; [reflexivity |].
        do 2 (split; [reflexivity |]). right. split; [reflexivity |]. by eexists.
  - cbn. rewrite fall_through_eq. do 2 eexists. split; [reflexivity |].
    do 2 (split; [reflexivity |]). left. split; [reflexivity |]. intros r [=].
Qed.

Lemma get_node_table_subseteq (h : host) (p_name : string) (w : world) :
  old_nodes_names_dict (snd (get_node_from_promethean_name h p_name w))
    ⊆ old_nodes_names_dict w.
Proof.
  destruct (get_node_table h p_name w) as (res & w' & -> & _ & _ & [[Hd _] | [Hd _]]);
    cbn [snd]; rewrite Hd; [done | apply delete_subseteq].
Qed.

(** [get_nodes_from_promethean_names] returns, and touches neither the
    session trace nor the unit factor. *)
Lemma get_nodes_quiet (h : host) (names : list string) (w : world) :
  exists nodes w',
    get_nodes_from_promethean_names h names w = (Ret nodes, w') /\
    calls w' = calls w /\ units_multiplier w' = units_multiplier w.
Proof.
  revert w. induction names as [| name names IH]; intros w.
  - by exists [], w.
  - cbn [get_nodes_from_promethean_names]. unfold bind at 1.
    destruct (get_node_table h name w) as (res & w1 & Hrun & Hc1 & Hu1 & _).
    rewrite Hrun. destruct (IH w1) as (nodes & w' & Hrest & Hc & Hu).
    unfold bind at 1. rewrite Hrest. cbn -[get_node_from_promethean_name].
    exists (res :: nodes), w'. split; [reflexivity |].
    split; [by rewrite Hc | by rewrite Hu].
Qed.

(** X3. Resolution only ever takes from the redirect table, and only the
    entry of the name it resolves: the table afterwards is included in the
    table before, every other name keeps its entry, and an entry that is
    left for the resolved name with a non-empty handle is one the session
    still knows. *)
Theorem resolution_heals_table (h : host) (p_name : string) (w : world) :
  let w' := snd (get_node_from_promethean_name h p_name w) in
  old_nodes_names_dict w' ⊆ old_nodes_names_dict w /\
  (forall other, other <> p_name ->
     old_nodes_names_dict w' !! other = old_nodes_names_dict w !! other) /\
  (forall r, old_nodes_names_dict w' !! p_name = Some r -> r <> EmptyString ->
     truthy_list (ls h r) = true).
Proof.
  intros w'. subst w'.
  destruct (get_node_table h p_name w) as (res & w' & -> & _ & _ & [[Hd Hlive] | [Hd Hgone]]);
    cbn [snd]; rewrite Hd.
  - split; [done |]. split; [done |].
    intros r Hr Hne. by destruct (Hlive r Hr Hne).
  - split; [apply delete_subseteq |]. split.
    + intros other Hne. by rewrite lookup_delete_ne.
    + intros r Hr. by rewrite lookup_delete_eq in Hr.
Qed.

(** X4. Resolving a name twice in a row gives the same answer, and the
    second resolution changes nothing. *)
Theorem resolution_is_idempotent (h : host) (p_name : string) (w : world) :
  let first := get_node_from_promethean_name h p_name w in
  get_node_from_promethean_name h p_name (snd first) = (fst first, snd first).
Proof.
  cbn zeta. unfold get_node_from_promethean_name, bind, get.
  destruct (old_nodes_names_dict w !! p_name) as [r |] eqn:Hr.
  - destruct r as [| c r'].
    + cbn. rewrite !fall_through_eq. cbn. rewrite Hr. cbn.
      by rewrite fall_through_eq.
    + cbn [truthy_str]. destruct (truthy_list (ls h (String c r'))) eqn:Hls.
      * cbn. rewrite Hr. cbn. by rewrite Hls.
      * cbn. rewrite !fall_through_eq. cbn. rewrite lookup_delete_eq. cbn.
        by rewrite fall_through_eq.
  - cbn. rewrite !fall_through_eq. cbn. rewrite Hr. cbn.
    by rewrite fall_through_eq.
Qed.

(** X5. [get_nodes_from_promethean_names] never raises and answers
    position by position: the result is as long as the list of names, a name
    that does not resolve leaves [None] at its place, and every answer is
    the resolution of its name in a table included in the one the call
    started with.  The session trace and the unit factor are untouched. *)
Theorem get_nodes_aligned (h : host) (names : list string) (w : world) :
  exists nodes w',
    get_nodes_from_promethean_names h names w = (Ret nodes, w') /\
    length nodes = length names /\
    calls w' = calls w /\ units_multiplier w' = units_multiplier w /\
    old_nodes_names_dict w' ⊆ old_nodes_names_dict w /\
    forall i name, names !! i = Some name ->
      exists wi, old_nodes_names_dict wi ⊆ old_nodes_names_dict w /\
                 nodes !! i = Some (match fst (get_node_from_promethean_name h name wi) with
                                    | Ret res => res
                                    | Raise _ => None
                                    end).
Proof.
  revert w. induction names as [| name names IH]; intros w.
  - exists [], w. repeat split; try done.
  - cbn [get_nodes_from_promethean_names]. unfold bind at 1.
    pose proof (get_node_table_subseteq h name w) as Hsub.
    destruct (get_node_table h name w) as (res & w1 & Hrun & Hc1 & Hu1 & _).
    rewrite Hrun in Hsub |- *. cbn [snd] in Hsub.
    destruct (IH w1) as (nodes & w' & Hrest & Hlen & Hc & Hu & Hsub' & Hpos).
    unfold bind at 1. rewrite Hrest. cbn -[get_node_from_promethean_name].
    exists (res :: nodes), w'. split; [reflexivity |].
    split; [cbn; by rewrite Hlen |]. split; [by rewrite Hc |]. split; [by rewrite Hu |].
    split; [by etrans |].
    intros [| i] name' Hi.
    + cbn in Hi. injection Hi as Hi. subst name'. exists w. split; [done |].
      rewrite Hrun. reflexivity.
    + destruct (Hpos i name' Hi) as (wi & Hwi & Hnode).
      exists wi. split; [by etrans | exact Hnode].
Qed.

End RedirectFacts.

(** ** More on the geometry helpers *)

Module GeometryMore.
Import Num Geometry GeometryFacts.

(** X7. [check_winding_order] has a result exactly when the list holds at
    least three points and each of the first three has at least three
    coordinates; otherwise an index is out of range. *)
Theorem check_winding_order_defined (ar : arith) (tri : list vec) (normal : vec) :
  is_Some (check_winding_order ar tri normal) <->
  exists p0 p1 p2 rest,
    tri = p0 :: p1 :: p2 :: rest /\
    (3 <= length p0)%nat /\ (3 <= length p1)%nat /\ (3 <= length p2)%nat.
Proof.
  unfold check_winding_order. split.
  - destruct tri as [| p0 [| p1 [| p2 rest]]]; cbn; try (intros [? ?]; discriminate).
    unfold cross, sub.
    destruct p0 as [| x0 [| y0 [| z0 p0]]]; destruct p1 as [| x1 [| y1 [| z1 p1]]];
      cbn; try (intros [? ?]; discriminate);
      destruct p2 as [| x2 [| y2 [| z2 p2]]]; cbn; try (intros [? ?]; discriminate).
    intros _. do 4 eexists. split; [reflexivity |]. cbn. lia.
  - intros (p0 & p1 & p2 & rest & -> & H0 & H1 & H2).
    destruct p0 as [| x0 [| y0 [| z0 p0]]]; cbn in H0; try lia.
    destruct p1 as [| x1 [| y1 [| z1 p1]]]; cbn in H1; try lia.
    destruct p2 as [| x2 [| y2 [| z2 p2]]]; cbn in H2; try lia.
    cbn. by eexists.
Qed.

End GeometryMore.

(** ** Batches of command lines *)

Module BatchFacts.
Import Py Host Run Dispatch.
Import ResolverFacts NamesFacts.

Section Switch.
Variable other_commands : host -> list string -> string -> option (M branch).
Variable h : host.

Lemma command_loop_blank (lines1 lines2 : list string) :
  same (command_loop other_commands h (lines1 ++ EmptyString :: lines2))
       (command_loop other_commands h (lines1 ++ lines2)).
Proof.
  induction lines1 as [| l ls IH]; intros w; [reflexivity |].
  cbn [app command_loop]. destruct (negb (truthy_str l)); [apply IH |].
  unfold bind. destruct (command_branch other_commands h l w) as [[[| msg |] | e] w1];
    try reflexivity. apply IH.
Qed.

Lemma one_undo_chunk_same {A : Type} (f g : M A) :
  same f g -> same (one_undo_chunk f) (one_undo_chunk g).
Proof.
  intros H w. unfold one_undo_chunk, bind, do_call, modify, try_finally, try_except.
  cbn. by rewrite H.
Qed.

(** X11. Blank lines of a batch are skipped, wherever they are: a doubled
    line break inside the text, a line break at its end and a line break at
    its start leave the result and every effect of [command_switch] as they
    are without it; in particular a trailing line break does not hand an
    empty line to [mayaExec]. *)
Theorem command_switch_skips_blank_lines (l r : string) :
  same (command_switch other_commands h (l +:+ String "010" (String "010" r)))
       (command_switch other_commands h (l +:+ String "010" r)) /\
  same (command_switch other_commands h (l +:+ String "010" EmptyString))
       (command_switch other_commands h l) /\
  same (command_switch other_commands h (String "010" r))
       (command_switch other_commands h r).
Proof.
  unfold command_switch. split; [| split]; apply one_undo_chunk_same.
  - rewrite !split_app. cbn [split]. rewrite Ascii.eqb_refl. apply command_loop_blank.
  - rewrite split_app. cbn [split]. intros w.
    rewrite (command_loop_blank (split "010" l) [] w). by rewrite app_nil_r.
  - cbn [split]. rewrite Ascii.eqb_refl. intros w. reflexivity.
Qed.
End Switch.

End BatchFacts.

(** ** Moving nodes without a raytrace *)

Module MoveFacts.
Import Num Geometry Py Host Run Raytrace Placement.

Lemma raytrace_nothing_in_view (h : host) (start_point direction : vec) (distance : Q)
    (ignore_dcc_names : list (option string)) (w : world) :
  get_geometry_in_view h = [] ->
  raytrace h start_point direction distance ignore_dcc_names w = (Ret None, w).
Proof. intros H. unfold raytrace, bind, get. by rewrite H. Qed.

(** X12. With a raytrace distance of zero, or with no mesh in view,
    [translate_and_raytrace_by_name] moves every given node to the given
    location, in the order of the list, and does nothing else: no rotation
    is set and the module state is untouched. *)
Theorem translate_without_hit_moves_all (h : host) (dcc_names : list (option string))
    (x y z : Q) (raytrace_distance max_normal_deviation : Q)
    (ignore_dcc_names : list (option string)) (w : world) :
  truthy_num (Some raytrace_distance) = false \/ get_geometry_in_view h = [] ->
  translate_and_raytrace_by_name h dcc_names [x; y; z] raytrace_distance
      max_normal_deviation ignore_dcc_names w
    = (Ret tt,
       {| old_nodes_names_dict := old_nodes_names_dict w;
          units_multiplier := units_multiplier w;
          calls := calls w ++ map (MoveTo x y z) dcc_names |}).
Proof.
  intros Hmiss. revert w. induction dcc_names as [| n rest IH]; intros w.
  - cbn. rewrite app_nil_r. by destruct w.
  - cbn [translate_and_raytrace_by_name map].
    destruct Hmiss as [Hzero | Hview].
    + rewrite Hzero. unfold bind, do_call, modify. cbn. rewrite IH. cbn.
      by rewrite <- app_assoc.
    + destruct (truthy_num (Some raytrace_distance)).
      * unfold bind, do_call, modify.
        rewrite (raytrace_nothing_in_view _ _ _ _ _ _ Hview). cbn. rewrite IH. cbn.
        by rewrite <- app_assoc.
      * unfold bind, do_call, modify. cbn. rewrite IH. cbn.
        by rewrite <- app_assoc.
Qed.

Lemma translate_without_hit_moves_all_witness :
  translate_and_raytrace_by_name (Sample.scene true [0; 1; 0])
      [Some "|P|C"; Some "|P"] [1; 2; 3] 0 (1 # 2) [] Sample.world0
    = (Ret tt,
       {| old_nodes_names_dict := old_nodes_names_dict Sample.world0;
          units_multiplier := units_multiplier Sample.world0;
          calls := calls Sample.world0
                   ++ map (MoveTo 1 2 3) [Some "|P|C"; Some "|P"] |}).
Proof.
  apply translate_without_hit_moves_all. left. reflexivity.
Defined.

End MoveFacts.

(** ** Replies of the Qt server *)

Module ReplyFacts.
Import Py Host Run QtServer ReplySpec.
Import ServerFacts.

Lemma replies_emit (c : call) (w : world) :
  replies (emit c w) = replies w ++ (if is_write c then [c] else []).
Proof. unfold replies, emit. cbn. rewrite List.filter_app. cbn. by destruct (is_write c). Qed.

Section Server.
Variable command_switch : string -> M (option string).
Hypothesis command_switch_writes_nothing :
  forall s w, replies (snd (command_switch s w)) = replies w.

Lemma process_loop_writes_nothing (l : list string) (res : option string) (w : world) :
  replies (snd (process_loop command_switch l res w)) = replies w.
Proof.
  revert res w. induction l as [| data l IH]; intros res w; [reflexivity |].
  destruct data as [| c data]; [apply IH |].
  rewrite process_loop_cons by done.
  pose proof (command_switch_writes_nothing (String c data)
                (emit (Print (new_command_message (String c data))) w)) as Hcs.
  destruct (command_switch _ _) as [[a | e] w1]; cbn [snd] in Hcs;
    rewrite IH, ?replies_emit, Hcs, replies_emit; cbn [is_write]; by rewrite ?app_nil_r.
Qed.
End Server.



End ReplyFacts.

(** ** The worker of the threaded server *)

Module WorkerFacts.
Import Py Host Run QueueServer.
Import QueueFacts.

Section Worker.
Variable dispatch : nat -> string -> M (option string).
Variable ignore_vacate_socket : bool.

Local Abbreviation run := (QueueServer.run dispatch ignore_vacate_socket).
Local Abbreviation execute_items := (QueueServer.execute_items dispatch).

Lemma started_once_cons (a : action) (schedule : list action) :
  started_once (a :: schedule) = true -> a <> Start /\ started_once schedule = true.
Proof.
  unfold started_once. cbn [forallb]. intros H. apply andb_prop in H as [Ha H].
  split; [by destruct a | exact H].
Qed.

(** With the flag cleared, a single worker that is at the head of its
    loop or has left it executes nothing more. *)
Lemma stopped_worker_is_inert (schedule : list action) (p : pc) (s : server) :
  workers s = [p] ->
  p = LoopHead \/ p = Exited ->
  enable_command_stack s = false ->
  started_once schedule = true ->
  let s' := run schedule s in
  session s' = session s /\
  enable_command_stack s' = false /\
  in_flight s' = [] /\
  command_stack s' = command_stack s ++ arrivals schedule.
Proof.
  revert p s. induction schedule as [| a schedule IH]; intros p s Hws Hp Hflag Honce.
  - cbn. unfold in_flight. rewrite Hws, app_nil_r. by destruct Hp as [-> | ->].
  - apply started_once_cons in Honce as [Ha Honce].
    destruct s as [q flag w ws]. cbn in Hws, Hflag. subst ws flag.
    assert (Hstep : exists p',
              (p' = LoopHead \/ p' = Exited) /\
              step dispatch ignore_vacate_socket a
                {| command_stack := q; enable_command_stack := false; session := w;
                   workers := [p] |}
                = {| command_stack := q ++ arrivals [a]; enable_command_stack := false;
                     session := w; workers := [p'] |}).
    { destruct a as [connection data | i | |]; cbn [step arrivals omap list_omap];
        try done.
      - destruct (truthy_str data); cbn [andb]; [| exists p; by rewrite app_nil_r].
        destruct (String.eqb data vacate_socket_command); cbn [negb].
        + exists p. rewrite app_nil_r. by destruct ignore_vacate_socket.
        + exists p. by split.
      - rewrite app_nil_r. destruct i as [| i]; [| by exists p].
        destruct Hp as [-> | ->]; exists Exited; (split; [by right | reflexivity]).
      - exists p. by rewrite app_nil_r. }
    destruct Hstep as (p' & Hp' & Hstep).
    cbn [QueueServer.run fold_left]. rewrite Hstep.
    destruct (IH p' {| command_stack := q ++ arrivals [a]; enable_command_stack := false;
                       session := w; workers := [p'] |} eq_refl Hp' eq_refl Honce)
      as (I1 & I2 & I3 & I4).
    cbn [command_stack session] in *. unfold QueueServer.run in *.
    rewrite I1, I2, I3, I4. repeat split.
    change (a :: schedule) with ([a] ++ schedule).
    unfold arrivals. by rewrite omap_app, app_assoc.
Qed.

(** With the flag cleared and no new call of [start_server], a single
    worker executes at most one more command, the first of those it holds,
    finds queued or sees arrive, and none when it is at the head of its
    loop; everything else stays queued. *)
Lemma stopped_worker_executes_at_most_one (schedule : list action) (p : pc) (s : server) :
  workers s = [p] ->
  p <> Crashed ->
  (p = AboutToPop -> command_stack s <> []) ->
  enable_command_stack s = false ->
  started_once schedule = true ->
  let s' := run schedule s in
  exists served,
    (length served <= 1)%nat /\
    in_flight s ++ command_stack s ++ arrivals schedule
      = served ++ in_flight s' ++ command_stack s' /\
    session s' = execute_items served (session s) /\
    enable_command_stack s' = false /\
    (p = LoopHead \/ p = Exited -> served = []).
Proof.
  revert p s. induction schedule as [| a schedule IH];
    intros p s Hws Hcrash Hpop Hflag Honce.
  - exists []. cbn. rewrite app_nil_r. repeat split; [lia | done].
  - assert (Hdec : (p = LoopHead \/ p = Exited) \/ ~ (p = LoopHead \/ p = Exited)).
    { destruct p; auto; right; intros [H | H]; discriminate H. }
    destruct Hdec as [Hp | Hp].
    { destruct (stopped_worker_is_inert (a :: schedule) p s Hws Hp Hflag Honce)
        as (I1 & I2 & I3 & I4).
      exists []. cbn zeta. rewrite I1, I2, I3, I4. cbn [length app].
      repeat split; try done; [lia |].
      unfold in_flight. rewrite Hws. by destruct Hp as [-> | ->]. }
    apply started_once_cons in Honce as [Ha Honce].
    destruct s as [q flag w ws]. cbn in Hws, Hflag, Hpop. subst ws flag.
    cbn [QueueServer.run fold_left].
    set (s0 := {| command_stack := q; enable_command_stack := false; session := w;
                  workers := [p] |}).
    assert (Hsame : forall q', 
              q ++ arrivals [a] = q' ->
              step dispatch ignore_vacate_socket a s0
                = {| command_stack := q'; enable_command_stack := false; session := w;
                     workers := [p] |} ->
              exists served,
                (length served <= 1)%nat /\
                in_flight s0 ++ q ++ arrivals (a :: schedule)
                  = served ++ in_flight (run schedule (step dispatch ignore_vacate_socket a s0))
                      ++ command_stack (run schedule (step dispatch ignore_vacate_socket a s0)) /\
                session (run schedule (step dispatch ignore_vacate_socket a s0))
                  = execute_items served w /\
                enable_command_stack (run schedule (step dispatch ignore_vacate_socket a s0))
                  = false /\
                (p = LoopHead \/ p = Exited -> served = [])).
    { intros q' Hq' Hstep. rewrite Hstep.
      assert (Hpop' : p = AboutToPop -> q' <> [])
        by (intros Hp'; specialize (Hpop Hp'); subst q'; by destruct q).
      destruct (IH p {| command_stack := q'; enable_command_stack := false; session := w;
                        workers := [p] |} eq_refl Hcrash Hpop' eq_refl Honce)
        as (served & H1 & H2 & H3 & H4 & H5).
      exists served. cbn [command_stack session] in *. unfold QueueServer.run in *.
      rewrite <- H2. repeat split; try done.
      change (a :: schedule) with ([a] ++ schedule). unfold arrivals at 1.
      rewrite omap_app. fold (arrivals [a]) (arrivals schedule).
      subst q'. by rewrite <- !app_assoc. }
    destruct a as [connection data | i | |]; try done.
    + cbn [step]. cbn [step] in Hsame.
      destruct (truthy_str data) eqn:Hd.
      * destruct (String.eqb data vacate_socket_command) eqn:Hv; cbn [negb].
        -- apply (Hsame q).
           ++ cbn. rewrite Hd, Hv. cbn. by rewrite app_nil_r.
           ++ by destruct ignore_vacate_socket.
        -- apply (Hsame (q ++ [(data, connection)])); [| reflexivity].
           cbn. by rewrite Hd, Hv.
      * apply (Hsame q); [| reflexivity]. cbn. rewrite Hd. cbn. by rewrite app_nil_r.
    + destruct i as [| i].
      2:{ apply (Hsame q); [cbn; by rewrite app_nil_r | reflexivity]. }
      clear Hsame. subst s0. unfold in_flight at 1.
      cbn [step workers flat_map command_stack session].
      destruct p as [| | | it | |]; try done; try (exfalso; apply Hp; by auto).
      * (* the stack test *)
        unfold work, at_pc. cbn [workers lookup list_lookup command_stack
                                  enable_command_stack session insert list_insert].
        destruct q as [| it rest]; cbn [truthy_list].
        -- destruct (stopped_worker_is_inert schedule LoopHead
                       {| command_stack := []; enable_command_stack := false;
                          session := w; workers := [LoopHead] |})
             as (I1 & I2 & I3 & I4); try done; [by left |].
           exists []. unfold QueueServer.run in *. rewrite I1, I2, I3, I4.
           cbn [length app command_stack session]. repeat split; try done. lia.
        -- destruct (IH AboutToPop
                       {| command_stack := it :: rest; enable_command_stack := false;
                          session := w; workers := [AboutToPop] |})
             as (served & H1 & H2 & H3 & H4 & _); try done.
           exists served. unfold QueueServer.run in *. rewrite <- H2.
           repeat split; try done.
      * (* the pop *)
        unfold work. cbn [workers lookup list_lookup command_stack
                           enable_command_stack session insert list_insert].
        destruct q as [| it rest]; [by destruct Hpop |].
        destruct (IH (Popped it)
                     {| command_stack := rest; enable_command_stack := false;
                        session := w; workers := [Popped it] |})
          as (served & H1 & H2 & H3 & H4 & _); try done.
        exists served. unfold QueueServer.run in *. rewrite <- H2.
        repeat split; try done.
      * (* the execution *)
        unfold work. cbn [workers lookup list_lookup command_stack
                           enable_command_stack session insert list_insert].
        destruct (stopped_worker_is_inert schedule LoopHead
                    {| command_stack := q; enable_command_stack := false;
                       session := snd (execute_item dispatch it w);
                       workers := [LoopHead] |})
          as (I1 & I2 & I3 & I4); try done; [by left |].
        exists [it]. unfold QueueServer.run in *. rewrite I1, I2, I3, I4.
        cbn [length app command_stack session]. repeat split; try done.
    + apply (Hsame q); [cbn; by rewrite app_nil_r | reflexivity].
Qed.

End Worker.

(** X14. Once a connection has received the vacate command (and vacating
    is not ignored), and while [start_server] is not called again, the
    single worker executes at most one more command: the one it holds, or
    the first one it finds on the stack when it is already past the test
    of the flag; a worker at the head of its loop executes nothing.
    Everything else that is queued or arrives afterwards stays queued, in
    arrival order, and the flag stays cleared. *)
Theorem vacate_stops_the_worker (dispatch : nat -> string -> M (option string))
    (connection : nat) (schedule : list action) (p : pc) (s : server) :
  workers s = [p] ->
  p <> Crashed ->
  (p = AboutToPop -> command_stack s <> []) ->
  started_once schedule = true ->
  let s' := run dispatch false (Recv connection vacate_socket_command :: schedule) s in
  exists served,
    (length served <= 1)%nat /\
    in_flight s ++ command_stack s ++ arrivals schedule
      = served ++ in_flight s' ++ command_stack s' /\
    session s' = execute_items dispatch served (session s) /\
    enable_command_stack s' = false /\
    (p = LoopHead \/ p = Exited -> served = []).
Proof.
  intros Hws Hcrash Hpop Honce.
  apply (stopped_worker_executes_at_most_one dispatch false schedule p (close_server s));
    done.
Qed.

(** X15. A running worker serves the queue from its head: [k] rounds of
    a worker (the test of the flag, the test of the stack, the pop and the
    execution, or the first two on an empty stack, twice), with nothing
    else happening in between, execute the first [k] queued commands in
    order and leave the others queued; as many rounds as there are queued
    commands empty the queue. *)
Theorem worker_drains_queue (dispatch : nat -> string -> M (option string))
    (ignore_vacate_socket : bool) (i k : nat) (s : server) :
  enable_command_stack s = true ->
  workers s !! i = Some LoopHead ->
  run dispatch ignore_vacate_socket (repeat (Work i) (4 * k)) s
    = {| command_stack := drop k (command_stack s);
         enable_command_stack := true;
         session := execute_items dispatch (take k (command_stack s)) (session s);
         workers := workers s |}.
Proof.
  revert s. induction k as [| k IH]; intros s Hflag Hpc.
  - cbn. rewrite drop_0. destruct s; cbn in *; by subst.
  - replace (4 * S k)%nat with (4 + 4 * k)%nat by lia.
    rewrite repeat_app, run_app.
    destruct (command_stack s) as [| it rest] eqn:Hq.
    + change (repeat (Work i) 4) with (repeat (Work i) 2 ++ repeat (Work i) 2).
      rewrite run_app, !(round_on_empty_stack dispatch ignore_vacate_socket i s Hflag Hpc Hq).
      rewrite (IH s Hflag Hpc), Hq. by rewrite drop_nil, take_nil.
    + rewrite (round_executes_head dispatch ignore_vacate_socket i it rest s Hflag Hpc Hq).
      rewrite IH; [| reflexivity | exact Hpc]. reflexivity.
Qed.

Lemma vacate_stops_the_worker_witness :
  let s := {| command_stack := [("select", 2%nat)];
              enable_command_stack := true;
              session := Sample.world0;
              workers := [Popped ("report_done", 1%nat)] |} in
  let s' := run command_switch_call false
              [Recv 3 vacate_socket_command; Work 0; Recv 1 "parent"; Work 0; Work 0] s in
  exists served,
    (length served <= 1)%nat /\
    [("report_done", 1%nat); ("select", 2%nat); ("parent", 1%nat)]
      = served ++ in_flight s' ++ command_stack s' /\
    session s' = execute_items command_switch_call served Sample.world0 /\
    enable_command_stack s' = false /\
    (Popped ("report_done", 1%nat) = LoopHead \/ Popped ("report_done", 1%nat) = Exited ->
     served = []).
Proof.
  intros s s'.
  apply (vacate_stops_the_worker command_switch_call 3
           [Work 0; Recv 1 "parent"; Work 0; Work 0] (Popped ("report_done", 1%nat)) s);
    try reflexivity; discriminate.
Defined.

Lemma worker_drains_queue_witness :
  run command_switch_call false (repeat (Work 0) (4 * 2))
      {| command_stack := [("report_done", 1%nat); ("select", 2%nat); ("parent", 1%nat)];
         enable_command_stack := true;
         session := Sample.world0;
         workers := [LoopHead] |}
    = {| command_stack := [("parent", 1%nat)];
         enable_command_stack := true;
         session := execute_items command_switch_call
                      [("report_done", 1%nat); ("select", 2%nat)] Sample.world0;
         workers := [LoopHead] |}.
Proof.
  apply (worker_drains_queue command_switch_call false 0 2
           {| command_stack := [("report_done", 1%nat); ("select", 2%nat); ("parent", 1%nat)];
              enable_command_stack := true;
              session := Sample.world0;
              workers := [LoopHead] |});
    reflexivity.
Defined.

End WorkerFacts.

(** ** Packed names *)

Module PackFacts.
Import Py Host Run Names.
Import ResolverFacts NamesFacts.

(** X16. [unpack_dcc_name] does not undo [pack_dcc_name]: packing puts the
    UUID before the [#] and the name after it, and unpacking keeps what
    follows the last [#]; so for a node the session knows, whose name has no
    [#], unpacking the packed name gives the name in upper case and not the
    UUID. *)
Theorem unpack_of_pack_is_upper_name (h : host) (dcc_name u : string) (us : list string) :
  ls_uuid h dcc_name = u :: us ->
  without "#" dcc_name ->
  pack_dcc_name h dcc_name = Ret (lower u +:+ "#" +:+ dcc_name) /\
  unpack_dcc_name (lower u +:+ "#" +:+ dcc_name) = upper dcc_name.
Proof.
  intros Hu Hn. split; [unfold pack_dcc_name; by rewrite Hu |].
  unfold unpack_dcc_name.
  change ("#" +:+ dcc_name) with (String "#" dcc_name).
  by rewrite (after_last_app "#" (lower u) dcc_name Hn).
Qed.

Lemma unpack_of_pack_is_upper_name_witness :
  pack_dcc_name (Sample.scene true [0; 1; 0]) "|P|C"
    = Ret (lower Sample.uuid_C +:+ "#" +:+ "|P|C") /\
  unpack_dcc_name (lower Sample.uuid_C +:+ "#" +:+ "|P|C") = upper "|P|C".
Proof.
  eapply unpack_of_pack_is_upper_name; [reflexivity |].
  cbn. repeat split; discriminate.
Defined.

End PackFacts.

(** ** What the branches of the dispatcher do to the session *)

Module BranchFacts.
Import Py Host Run Resolver Placement Dispatch BranchSpec.
Import RedirectFacts.

Lemma transform_values_pure (h : host) (is_translate : bool) (um : Q) (xs : list string)
    (w : world) :
  exists r, transform_values h is_translate um xs w = (r, w).
Proof.
  induction xs as [| x xs [r IH]]; cbn [transform_values]; [by eexists |].
  destruct (py_float h x) as [v |]; [| by eexists].
  unfold bind.
  assert (Hv : exists r, (if is_translate then py_div v um else ret v) w = (r, w)).
  { destruct is_translate; [apply RaytraceFacts.py_div_world | by eexists]. }
  destruct Hv as [[v' | e] ->]; [| by eexists].
  rewrite IH. destruct r; by eexists.
Qed.

(** X17. A transform command changes the session by one call at most, and
    by none when it fails: whatever the command line, the branch of
    [translate], [rotate], [scale] and their [_relative] forms either
    leaves the session trace as it was (and this is the case whenever it
    raises: a value that is no number, a unit factor of zero, fewer than
    three values, a missing list of names), or returns after one call of move, rotate or scale,
    relative exactly when the command ends in [_relative].  The unit
    factor is never changed. *)
Theorem command_transform_one_call (h : host) (command : string)
    (command_list : list string) (w : world) :
  let '(r, w') := command_transform h command command_list w in
  units_multiplier w' = units_multiplier w /\
  (calls w' = calls w \/
   r = Ret tt /\
   exists c, calls w' = calls w ++ [c] /\
             transform_call (endswith "_relative" command) c).
Proof.
  unfold command_transform. unfold bind at 1, get. unfold bind at 1.
  destruct (drop 1 command_list) as [| arg1 rest1]; cbn [item0];
    [cbn; split; [reflexivity | by left] |].
  cbn [ret]. unfold bind at 1.
  destruct (transform_values_pure h (in_list command ["translate"; "translate_relative"])
              (units_multiplier w) (split "," arg1) w) as [rv ->].
  destruct rv as [value | e]; [| split; [reflexivity | by left]].
  unfold bind at 1.
  destruct (drop 2 command_list) as [| arg2 rest2]; cbn [item0];
    [cbn; split; [reflexivity | by left] |].
  cbn [ret]. unfold bind at 1.
  destruct (get_nodes_quiet h (split "," arg2) w) as (nodes & w1 & -> & Hc & Hu).
  assert (Hcall : forall func : Q -> Q -> Q -> list string -> bool -> call,
            (forall x y z ns r, transform_call r (func x y z ns r)) ->
            let '(r, w') :=
              bind (index value 0) (fun v0 =>
              bind (index value 1) (fun v1 =>
              bind (index value 2) (fun v2 =>
              do_call (func v0 v1 v2 (truthy_nodes nodes)
                         (endswith "_relative" command))))) w1 in
            units_multiplier w' = units_multiplier w /\
            (calls w' = calls w \/
             r = Ret tt /\
             exists c, calls w' = calls w ++ [c] /\
                       transform_call (endswith "_relative" command) c)).
  { intros func Hfunc. unfold bind, index, do_call, modify, ret, raise.
    destruct value as [| v0 [| v1 [| v2 value]]];
      try (cbn; split; [exact Hu | by left]).
    cbn. split; [exact Hu |]. right. split; [reflexivity |].
    eexists. split; [by rewrite Hc | apply Hfunc]. }
  destruct (contains "translate" command); [apply Hcall; by intros |].
  destruct (contains "rotate" command); [apply Hcall; by intros |].
  destruct (contains "scale" command); [apply Hcall; by intros |].
  cbn. split; [exact Hu | by left].
Qed.

Lemma valid_children_loop_sub (h : host) (parent : string) (l : list string) (w : world) :
  exists r,
    valid_children_loop h parent l w = (r, w) /\
    forall res, r = Ret res -> forall c, c ∈ res -> c ∈ l.
Proof.
  induction l as [| child l (r & IH & Hsub)]; cbn [valid_children_loop].
  - eexists. split; [reflexivity |]. by intros res [= <-].
  - assert (Hkeep : exists k,
      (match listRelatives_parent h child with
       | child_parent :: _ =>
           if negb (objExists h child_parent) then ret false
           else bind (item0 (ls_uuid h child_parent))
                  (fun parent_uuid =>
                     if String.eqb parent_uuid parent then ret false else ret true)
       | [] => ret true
       end) w = (k, w)).
    { destruct (listRelatives_parent h child) as [| child_parent ?]; [by eexists |].
      destruct (negb (objExists h child_parent)); [by eexists |].
      unfold bind. destruct (ls_uuid h child_parent) as [| u ?]; cbn; [by eexists |].
      destruct (String.eqb u parent); by eexists. }
    destruct Hkeep as [k Hk]. unfold bind at 1. rewrite Hk.
    destruct k as [keep | e]; [| eexists; split; [reflexivity | by intros res [=]]].
    unfold bind. rewrite IH. destruct r as [more | e];
      [| eexists; split; [reflexivity | by intros res [=]]].
    eexists. split; [reflexivity |]. intros res [= <-] c Hc.
    destruct keep.
    + apply elem_of_cons in Hc as [-> | Hc]; [apply elem_of_cons; by left |].
      apply elem_of_cons. right. by apply (Hsub more).
    + apply elem_of_cons. right. by apply (Hsub more).
Qed.

Lemma elem_of_truthy_nodes (nodes : list (option string)) (c : string) :
  c ∈ truthy_nodes nodes -> Some c ∈ nodes /\ c <> EmptyString.
Proof.
  unfold truthy_nodes. intros H. apply list_elem_of_omap in H as (x & Hx & Hc).
  destruct x as [n |]; [| done]. destruct n as [| a n]; [done |].
  cbn in Hc. injection Hc as <-. by split.
Qed.

(** X18. The [parent] command never parents anything under a node the
    session does not know, and never calls [cmds.parent] with an empty
    list: whatever its argument, the branch leaves the session trace as it
    was (always so when it raises), or adds one call that parents a
    non-empty list of existing nodes, each of them the resolution of one
    of the names after the first, under the existing resolution of the
    first name. *)
Theorem command_parent_is_safe (h : host) (arg : string) (w : world) :
  let w' := snd (command_parent h arg w) in
  units_multiplier w' = units_multiplier w /\
  (calls w' = calls w \/
   exists resolved children parent,
     fst (get_nodes_from_promethean_names h (split "," arg) w) = Ret (Some parent :: resolved) /\
     calls w' = calls w ++ [Parent children parent] /\
     children <> [] /\ objExists h parent = true /\
     forall c, c ∈ children ->
       Some c ∈ resolved /\ c <> EmptyString /\ objExists h c = true).
Proof.
  cbn zeta.
  destruct (get_nodes_quiet h (split "," arg) w) as (nodes & w1 & Hrun & Hc & Hu).
  remember (command_parent h arg w) as out eqn:Hout.
  unfold command_parent in Hout. unfold bind at 1 in Hout. rewrite Hrun in Hout |- *.
  cbn [fst].
  destruct nodes as [| [parent |] children];
    [subst out; cbn; split; [exact Hu | by left] | | subst out; cbn; split; [exact Hu | by left]].
  destruct (truthy_str parent && objExists h parent) eqn:Hp;
    [| subst out; cbn; split; [exact Hu | by left]].
  apply andb_true_iff in Hp as [_ Hex].
  unfold get_valid_children, bind in Hout.
  destruct (valid_children_loop_sub h parent
              (List.filter (objExists h) (truthy_nodes children)) w1) as (r & Hloop & Hsub).
  rewrite Hloop in Hout.
  destruct r as [valid | e]; [| subst out; cbn; split; [exact Hu | by left]].
  destruct valid as [| v valid]; [subst out; cbn; split; [exact Hu | by left] |].
  subst out. cbn. split; [exact Hu |]. right. exists children, (v :: valid), parent.
  split; [reflexivity |]. split; [by rewrite Hc |]. split; [done |]. split; [exact Hex |].
  intros c Hin. specialize (Hsub _ eq_refl c Hin).
  apply list_elem_of_In, List.filter_In in Hsub as [Hin' Hexc].
  apply list_elem_of_In, elem_of_truthy_nodes in Hin' as [Hres Hne]. by split.
Qed.

End BranchFacts.
